(** * Wallet scoring system: the scoring engine of [backend/scoring_model.py]

    A shallow embedding of the scoring engine and the proofs of its
    specification.

    Modelling conventions.
    - A Python [str] is a [string]; its characters are read as the code points
      0..255, with Python's [str.isspace] and [str.lower] on that range.
    - A Python [float] is a real number ([R]): arithmetic is exact, and
      [round(x, 2)] is rounding of [100 * x] to the nearest integer, ties to
      the even one, divided by 100.  NaN, infinities and binary rounding
      errors are outside the model.
    - A raised exception is the [Raise] case of [result]; [try ... except] is
      a match on it.
    - The DuckDB store, the Etherscan label service, the API key and the clock
      are the fields of an environment record [Env].
    - A pandas DataFrame is a record of the columns the code tests for and the
      list of its rows. *)

From Stdlib Require Import Bool Arith ZArith NArith List Ascii String Lia.
From Stdlib Require Import Sorted Permutation.
From Stdlib Require Import Reals Lra.
Import ListNotations.

Open Scope string_scope.

(** ** Characters and strings *)

Module Str.

(** [str.isspace] on one character: TAB..CR, FS..US, space, NEL and NBSP. *)
Definition isspace (c : ascii) : bool :=
  let n := N_of_ascii c in
  (((9 <=? n) && (n <=? 13)) || ((28 <=? n) && (n <=? 32))
   || (n =? 133) || (n =? 160))%N.

(** [str.lower] on one character: A..Z and the Latin-1 capitals. *)
Definition lower_char (c : ascii) : ascii :=
  let n := N_of_ascii c in
  if (((65 <=? n) && (n <=? 90))
      || ((192 <=? n) && (n <=? 222) && negb (n =? 215)))%N
  then ascii_of_N (n + 32) else c.

Fixpoint lower (s : string) : string :=
  match s with
  | EmptyString => EmptyString
  | String c s' => String (lower_char c) (lower s')
  end.

Fixpoint lstrip (s : string) : string :=
  match s with
  | EmptyString => EmptyString
  | String c s' => if isspace c then lstrip s' else s
  end.

Fixpoint rstrip (s : string) : string :=
  match s with
  | EmptyString => EmptyString
  | String c s' =>
      match rstrip s' with
      | EmptyString => if isspace c then EmptyString else String c EmptyString
      | r => String c r
      end
  end.

Definition strip (s : string) : string := rstrip (lstrip s).

(** [m in s] for two strings. *)
Fixpoint contains (m s : string) : bool :=
  prefix m s ||
  match s with
  | EmptyString => false
  | String _ s' => contains m s'
  end.

(** [s[n:]] *)
Fixpoint drop (n : nat) (s : string) : string :=
  match n, s with
  | O, _ => s
  | S n', String _ s' => drop n' s'
  | S _, EmptyString => EmptyString
  end.

Fixpoint all_chars (p : ascii -> bool) (s : string) : bool :=
  match s with
  | EmptyString => true
  | String c s' => p c && all_chars p s'
  end.

End Str.

(** ** Regular expressions, matched with derivatives ([re.fullmatch]) *)

Module Re.

Inductive regex : Type :=
| Empty : regex
| Eps : regex
| Chr : ascii -> regex
| Range : ascii -> ascii -> regex
| Alt : regex -> regex -> regex
| Cat : regex -> regex -> regex.

Definition in_range (lo hi c : ascii) : bool :=
  ((N_of_ascii lo <=? N_of_ascii c) && (N_of_ascii c <=? N_of_ascii hi))%N.

Fixpoint nullable (r : regex) : bool :=
  match r with
  | Empty => false
  | Eps => true
  | Chr _ => false
  | Range _ _ => false
  | Alt a b => nullable a || nullable b
  | Cat a b => nullable a && nullable b
  end.

Fixpoint deriv (c : ascii) (r : regex) : regex :=
  match r with
  | Empty => Empty
  | Eps => Empty
  | Chr d => if Ascii.eqb c d then Eps else Empty
  | Range lo hi => if in_range lo hi c then Eps else Empty
  | Alt a b => Alt (deriv c a) (deriv c b)
  | Cat a b =>
      if nullable a then Alt (Cat (deriv c a) b) (deriv c b)
      else Cat (deriv c a) b
  end.

Fixpoint fullmatch (r : regex) (s : string) : bool :=
  match s with
  | EmptyString => nullable r
  | String c s' => fullmatch (deriv c r) s'
  end.

(** [r{n}] *)
Fixpoint Repeat (n : nat) (r : regex) : regex :=
  match n with
  | O => Eps
  | S n' => Cat r (Repeat n' r)
  end.

(** The language of a regular expression. *)
Fixpoint lang (r : regex) (s : string) : Prop :=
  match r with
  | Empty => False
  | Eps => s = EmptyString
  | Chr c => s = String c EmptyString
  | Range lo hi => exists c, s = String c EmptyString /\ in_range lo hi c = true
  | Alt a b => lang a s \/ lang b s
  | Cat a b => exists s1 s2, s = s1 ++ s2 /\ lang a s1 /\ lang b s2
  end.

End Re.

(** ** Exceptions *)

Inductive exn : Type :=
| ValueError (msg : string)
| KeyError (key : string).

Inductive result (A : Type) : Type :=
| Ok (a : A)
| Raise (e : exn).

Arguments Ok {A} a.
Arguments Raise {A} e.

Definition bind {A B : Type} (m : result A) (k : A -> result B) : result B :=
  match m with
  | Ok a => k a
  | Raise e => Raise e
  end.

Notation "x <- m ;; k" := (bind m (fun x => k))
  (at level 61, m at next level, right associativity).

(** ** Address normalizer *)

(** [ETH_ADDRESS_RE = re.compile(r"^0x[a-f0-9]{40}$")]; under [fullmatch] the
    anchors add nothing. *)
Definition ETH_ADDRESS_RE : Re.regex :=
  Re.Cat (Re.Chr "0") (Re.Cat (Re.Chr "x")
    (Re.Repeat 40 (Re.Alt (Re.Range "a" "f") (Re.Range "0" "9")))).

Definition invalid_address_msg : string := "Invalid Ethereum address format".

Definition normalize_address (address : string) : result string :=
  let a := Str.lower (Str.strip address) in
  if negb (Re.fullmatch ETH_ADDRESS_RE a)
  then Raise (ValueError invalid_address_msg)
  else Ok a.

Definition table_name (address table_kind : string) : result string :=
  a <- normalize_address address ;;
  let suffix := Str.drop 2 a in
  if negb ((table_kind =? "tx") || (table_kind =? "erc20"))
  then Raise (ValueError "table_kind must be 'tx' or 'erc20'")
  else Ok (table_kind ++ "_" ++ suffix).

(** The spec's description of a canonical address: [0x] followed by exactly
    40 lowercase hexadecimal digits. *)
Definition is_hex_digit (c : ascii) : bool :=
  Re.in_range "a" "f" c || Re.in_range "0" "9" c.

Definition canonical_address (a : string) : Prop :=
  exists h, a = "0x" ++ h /\ String.length h = 40 /\ Str.all_chars is_hex_digit h = true.

(** ** Reputation label lookup *)

(** The label info returned by the label service; a missing or null list is
    the empty list ([tag_obj.get("labels", []) or []]). *)
Record TagObj : Type := {
  labels : list string;
  labels_slug : list string
}.

Definition scam_markers : list string :=
  ["phish"; "hack"; "scam"; "drainer"; "malicious"; "exploit"; "fraud";
   "blacklist"; "ofac"].

Definition is_scam_label (tag_obj : option TagObj) : bool :=
  match tag_obj with
  | None => false
  | Some t =>
      let labels_norm := String.concat " " (map Str.lower (labels t)) in
      let slugs_norm := String.concat " " (map Str.lower (labels_slug t)) in
      existsb (fun m => Str.contains m labels_norm) scam_markers
      || existsb (fun m => Str.contains m slugs_norm) scam_markers
  end.

(** ** Data frames and the environment *)

(** A stored transaction row and the row after [fetch_tx_from_db]. *)
Record RawTx : Type := {
  raw_timeStamp : Z;
  raw_value : Z;
  raw_to : string
}.

Record TxRow : Type := {
  datetime : Z;        (* seconds since the epoch *)
  value_eth : R;
  to_ : string
}.

Record TxFrame : Type := {
  tx_has_to : bool;    (* "to" in df.columns *)
  tx_rows : list TxRow
}.

Record Erc20Row : Type := {
  contractAddress : string;
  tokenSymbol : string
}.

Record Erc20Frame : Type := {
  erc20_has_contractAddress : bool;
  erc20_rows : list Erc20Row
}.

(** What [SELECT * FROM t] yields for a table of the store. *)
Record TxTable : Type := {
  txt_empty_flag : bool;     (* "empty_flag" in df.columns *)
  txt_has_to : bool;
  txt_rows : list RawTx
}.

Record Erc20Table : Type := {
  erct_empty_flag : bool;
  erct_has_contractAddress : bool;
  erct_rows : list Erc20Row
}.

Record Env : Type := {
  ETHERSCAN_API_KEY : bool;                 (* the key is set and non-empty *)
  db_tx : string -> option TxTable;         (* None: the query raised *)
  db_erc20 : string -> option Erc20Table;
  etherscan_tag : string -> option TagObj;  (* None: no tag, or the request failed *)
  now : Z                                   (* datetime.now(timezone.utc), in whole
                                               seconds: the fraction does not
                                               change the [.days] of a difference
                                               with a whole-second timestamp *)
}.

(** [df.empty] *)
Definition tx_empty (df : TxFrame) : bool :=
  match tx_rows df with [] => true | _ => false end.

Definition erc20_empty (df : Erc20Frame) : bool :=
  match erc20_rows df with [] => true | _ => false end.

(** [pd.DataFrame()] *)
Definition empty_tx_frame : TxFrame := {| tx_has_to := false; tx_rows := [] |}.

Definition empty_erc20_frame : Erc20Frame :=
  {| erc20_has_contractAddress := false; erc20_rows := [] |}.

Definition load_tx_row (r : RawTx) : TxRow :=
  {| datetime := raw_timeStamp r;
     value_eth := (IZR (raw_value r) / 1e18)%R;
     to_ := Str.lower (raw_to r) |}.

Definition fetch_tx_from_db (env : Env) (address : string) : result TxFrame :=
  tname <- table_name address "tx" ;;
  Ok match db_tx env tname with
     | None => empty_tx_frame
     | Some t =>
         match txt_rows t with
         | [] => empty_tx_frame
         | _ =>
             if txt_empty_flag t then empty_tx_frame
             else {| tx_has_to := txt_has_to t;
                     tx_rows := map load_tx_row (txt_rows t) |}
         end
     end.

Definition load_erc20_row (r : Erc20Row) : Erc20Row :=
  {| contractAddress := Str.lower (contractAddress r);
     tokenSymbol := tokenSymbol r |}.

Definition fetch_erc20_from_db (env : Env) (address : string) : result Erc20Frame :=
  tname <- table_name address "erc20" ;;
  Ok match db_erc20 env tname with
     | None => empty_erc20_frame
     | Some t =>
         match erct_rows t with
         | [] => empty_erc20_frame
         | _ =>
             if erct_empty_flag t then empty_erc20_frame
             else {| erc20_has_contractAddress := erct_has_contractAddress t;
                     erc20_rows := map load_erc20_row (erct_rows t) |}
         end
     end.

Definition get_etherscan_address_tag (env : Env) (address : string)
  : result (option TagObj) :=
  if negb (ETHERSCAN_API_KEY env) then Ok None
  else
    a <- normalize_address address ;;
    Ok (etherscan_tag env a).

(** ** Counterparty risk scan *)

(** The distinct values of a column, in order of first appearance. *)
Fixpoint unique (l : list string) : list string :=
  match l with
  | [] => []
  | x :: l' => x :: filter (fun y => negb (y =? x)) (unique l')
  end.

Definition count (x : string) (l : list string) : nat :=
  List.length (filter (fun y => y =? x) l).

Fixpoint insert_desc (p : string * nat) (l : list (string * nat))
  : list (string * nat) :=
  match l with
  | [] => [p]
  | q :: l' => if (snd p <? snd q)%nat then q :: insert_desc p l' else p :: l
  end.

Fixpoint sort_desc (l : list (string * nat)) : list (string * nat) :=
  match l with
  | [] => []
  | p :: l' => insert_desc p (sort_desc l')
  end.

(** Modelled from the spec: pandas' [Series.value_counts] is library code.  The
    spec ranks by occurrence count descending, ties broken by first-seen
    order: a stable descending sort of the tally of the distinct values. *)
Definition value_counts (l : list string) : list (string * nat) :=
  sort_desc (map (fun k => (k, count k l)) (unique l)).

(** The loop over [top_to]; [time.sleep] has no effect on the result. *)
Fixpoint scan_tagged (env : Env) (top_to : list string) : result (list string) :=
  match top_to with
  | [] => Ok []
  | addr :: rest =>
      if negb (Re.fullmatch ETH_ADDRESS_RE addr) then scan_tagged env rest
      else
        tag <- get_etherscan_address_tag env addr ;;
        tagged <- scan_tagged env rest ;;
        Ok (if is_scam_label tag then addr :: tagged else tagged)
  end.

Definition detect_tagged_scam_counterparties
  (env : Env) (df_tx : TxFrame) (max_to_check : nat)
  : result (nat * list string) :=
  if tx_empty df_tx || negb (tx_has_to df_tx) || negb (ETHERSCAN_API_KEY env)
  then Ok (O, [])
  else
    let top_to :=
      firstn max_to_check
        (map fst (value_counts (map Str.lower (map to_ (tx_rows df_tx))))) in
    tagged <- scan_tagged env top_to ;;
    Ok (List.length tagged, firstn 10 tagged).

Definition default_max_to_check : nat := 40.

(** ** Numeric helpers *)

Open Scope R_scope.

(** Rounding to the nearest integer, ties to the even one. *)
Definition round_half_even (x : R) : Z :=
  let f := Int_part x in
  let d := x - IZR f in
  if Rlt_dec d (1 / 2) then f
  else if Rlt_dec (1 / 2) d then (f + 1)%Z
  else if Z.even f then f else (f + 1)%Z.

(** [round(x, 2)] *)
Definition round2 (x : R) : R := IZR (round_half_even (x * 100)) / 100.

(** [np.clip(x, lo, hi)] *)
Definition clip (x lo hi : R) : R := Rmin (Rmax x lo) hi.

(** [np.log10] *)
Definition log10 (x : R) : R := ln x / ln 10.

Fixpoint sum_R (l : list R) : R :=
  match l with
  | [] => 0
  | x :: l' => x + sum_R l'
  end.

(** [Series.min()] on a non-empty column. *)
Definition series_min (l : list Z) : Z :=
  match l with
  | [] => 0%Z
  | x :: l' => fold_left Z.min l' x
  end.

(** [df[df[col].isin(S)].shape[0]] *)
Definition count_isin (S : list string) (col : list string) : nat :=
  List.length (filter (fun a => existsb (String.eqb a) S) col).

(** ** Indicators *)

Definition calculate_longevity_score (env : Env) (df_tx : TxFrame) : R :=
  if tx_empty df_tx then 0
  else
    let first_tx := series_min (map datetime (tx_rows df_tx)) in
    let days := Z.max ((now env - first_tx) / 86400) 0 in
    let denom := ln (730 + 1) in
    let score :=
      if Rlt_dec 0 denom then ln (IZR days + 1) / denom * 100 else 0 in
    round2 (Rmin score 100).

Definition calculate_activity_score (df_tx : TxFrame) : R :=
  if tx_empty df_tx then 0
  else
    let tx_count := List.length (tx_rows df_tx) in
    let volume_eth := sum_R (map value_eth (tx_rows df_tx)) in
    let MAX_TX := 5000 in
    let MAX_VOL := 10000 in
    let tx_norm := log10 (INR tx_count + 1) / log10 (MAX_TX + 1) in
    let vol_norm := log10 (volume_eth + 1) / log10 (MAX_VOL + 1) in
    let tx_norm := clip tx_norm 0 1 in
    let vol_norm := clip vol_norm 0 1 in
    round2 ((0.5 * tx_norm + 0.5 * vol_norm) * 100).

Definition calculate_diversity_score (df_tx : TxFrame) : R :=
  if tx_empty df_tx then 0
  else
    let unique_to :=
      if tx_has_to df_tx
      then List.length (unique (map to_ (tx_rows df_tx))) else O in
    let THRESHOLD := 25 in
    let score :=
      if Rlt_dec 0 THRESHOLD
      then Rmin 100 (INR unique_to / THRESHOLD * 100) else 0 in
    round2 score.

Definition KNOWN_SCAM_ADDRESSES : list string :=
  ["0xdeadbeefdeadbeefdeadbeefdeadbeefdeadbeef";
   "0x1234567812345678123456781234567812345678"]%string.

Definition calculate_general_risk_score (df_tx : TxFrame) (tagged_scam_count : Z) : R :=
  if tx_empty df_tx then 100
  else
    let incidents_list :=
      if tx_has_to df_tx
      then count_isin KNOWN_SCAM_ADDRESSES (map to_ (tx_rows df_tx)) else O in
    let incidents := (Z.of_nat incidents_list + tagged_scam_count)%Z in
    let lam := 0.9 in
    let score := 100 * exp (- lam * IZR incidents) in
    round2 (clip score 0 100).

Definition MIXER_OR_PRIVACY_TOOLING : list string :=
  ["0x1111111111111111111111111111111111111111";
   "0x2222222222222222222222222222222222222222"]%string.

Definition PRIVACY_TOKEN_CONTRACTS : list string :=
  ["0xaaaaaaaaaaaaaaaaaaaaaaaaaaaaaaaaaaaaaaaa";
   "0xbbbbbbbbbbbbbbbbbbbbbbbbbbbbbbbbbbbbbbbb"]%string.

Definition calculate_asset_risk_score (df_tx : TxFrame) (df_erc20 : Erc20Frame) : R :=
  let incidents_tools :=
    if negb (tx_empty df_tx) && tx_has_to df_tx
    then count_isin MIXER_OR_PRIVACY_TOOLING (map to_ (tx_rows df_tx)) else O in
  let incidents_tokens :=
    if negb (erc20_empty df_erc20) && erc20_has_contractAddress df_erc20
    then count_isin PRIVACY_TOKEN_CONTRACTS
           (map contractAddress (erc20_rows df_erc20)) else O in
  let incidents := (incidents_tools + incidents_tokens)%nat in
  let lam := 0.6 in
  let score := 100 * exp (- lam * INR incidents) in
  round2 (clip score 0 100).

(** ** Final score *)

Definition WEIGHTS : list (string * Z) :=
  [("Activity_Score", 25); ("Longevity_Score", 20); ("Diversity_Score", 25);
   ("General_Risk_Score", 25); ("Asset_Risk_Score", 5)]%string%Z.

Record Diagnostics : Type := {
  scam_counterparties_detected : nat;
  scam_addresses_sample : list string;
  tags_source : string
}.

(** The returned dict.  [address], [status] and [indicators] are read
    directly; for the other keys [None] says that the dict does not have the
    key, so that the presence of a value can be stated. *)
Record ScoreDict : Type := {
  address : string;
  status : string;
  final_score : option R;
  profile : option string;
  indicators : list (string * R);
  weights : option (list (string * Z));
  diagnostics : option Diagnostics
}.

(** [d[k]] *)
Fixpoint dict_get (d : list (string * R)) (k : string) : result R :=
  match d with
  | [] => Raise (KeyError k)
  | (k', v) :: d' => if (k' =? k)%string then Ok v else dict_get d' k
  end.

(** [sum(indicators[k] * WEIGHTS[k] for k in WEIGHTS)], from the accumulator
    [acc]. *)
Fixpoint weighted_sum (indicators : list (string * R)) (ws : list (string * Z))
  (acc : R) : result R :=
  match ws with
  | [] => Ok acc
  | (k, w) :: ws' =>
      v <- dict_get indicators k ;;
      weighted_sum indicators ws' (acc + v * IZR w)
  end.

Definition classify_profile (final_score : R) : string :=
  if Rge_dec final_score 85 then "Power User - High Reputation"
  else if Rge_dec final_score 60 then "Stable User - Medium Reputation"
  else if Rge_dec final_score 30 then "Inactive/New User - Low Reputation"
  else "Low Trust / Risk-Exposed Wallet".

Definition no_tx_data_msg : string :=
  "Error: Could not load tx data. Check ingestion step.".

(** The dict of the two early returns. *)
Definition error_dict (address status : string) : ScoreDict :=
  {| address := address; status := status; final_score := Some 0;
     profile := None; indicators := []; weights := None;
     diagnostics := None |}.

(** Lines 262-268: the [indicators] dict. *)
Definition indicators_dict
  (activity longevity diversity general_risk asset_risk : R)
  : list (string * R) :=
  [("Activity_Score", activity);
   ("Longevity_Score", longevity);
   ("Diversity_Score", diversity);
   ("General_Risk_Score", general_risk);
   ("Asset_Risk_Score", asset_risk)]%string.

(** Line 270: [final_score = sum(...) / 100.0]. *)
Definition weighted_final_score (indicators : list (string * R)) : result R :=
  s <- weighted_sum indicators WEIGHTS 0 ;;
  Ok (s / 100).

(** Lines 270-293: the weighted score, the profile and the returned dict. *)
Definition aggregate (env : Env) (a : string) (indicators : list (string * R))
  (tagged_scam_count : nat) (tagged_sample : list string) : result ScoreDict :=
  final_score <- weighted_final_score indicators ;;
  let profile := classify_profile final_score in
  Ok {| address := a;
        status := "OK";
        final_score := Some (round2 final_score);
        profile := Some profile;
        indicators := indicators;
        weights := Some WEIGHTS;
        diagnostics :=
          Some {| scam_counterparties_detected := tagged_scam_count;
                  scam_addresses_sample := tagged_sample;
                  tags_source :=
                    if ETHERSCAN_API_KEY env then "etherscan_getaddresstag"
                    else "not_configured" |} |}.

(** Lines 262-293, from the loaded frames and the scan's result. *)
Definition score_frames (env : Env) (a : string) (df_tx : TxFrame)
  (df_erc20 : Erc20Frame) (tagged_scam_count : nat) (tagged_sample : list string)
  : result ScoreDict :=
  aggregate env a
    (indicators_dict
       (calculate_activity_score df_tx)
       (calculate_longevity_score env df_tx)
       (calculate_diversity_score df_tx)
       (calculate_general_risk_score df_tx (Z.of_nat tagged_scam_count))
       (calculate_asset_risk_score df_tx df_erc20))
    tagged_scam_count tagged_sample.

Definition calculate_final_score (env : Env) (address : string) : result ScoreDict :=
  match normalize_address address with
  | Raise (ValueError e) => Ok (error_dict address e)
  | Raise e => Raise e
  | Ok a =>
      df_tx <- fetch_tx_from_db env a ;;
      if tx_empty df_tx then Ok (error_dict a no_tx_data_msg)
      else
        df_erc20 <- fetch_erc20_from_db env a ;;
        r <- detect_tagged_scam_counterparties env df_tx default_max_to_check ;;
        score_frames env a df_tx df_erc20 (fst r) (snd r)
  end.

(** ** Specification-level notions used by the proofs *)

(** A character that [strip] keeps and [lower] leaves alone. *)
Definition plain (c : ascii) : bool :=
  negb (Str.isspace c) && Ascii.eqb (Str.lower_char c) c.

(** [m] occurs in [s] as a contiguous substring. *)
Definition Substring (m s : string) : Prop :=
  exists a b, s = (a ++ m ++ b)%string.

Definition no_space (m : string) : bool :=
  Str.all_chars (fun c => negb (Ascii.eqb c " ")) m.

(** An environment without API key and with an empty store. *)
Definition env_offline : Env :=
  {| ETHERSCAN_API_KEY := false;
     db_tx := fun _ => None;
     db_erc20 := fun _ => None;
     etherscan_tag := fun _ => None;
     now := 1700000000 |}.

Definition sample_address : string :=
  "0xdadb0d80178819f2319190d340ce9a924f783711".

(** The spec's scenario: one record of 1 ETH to one recipient, stamped exactly
    365 days before [now]. *)
Definition one_year_frame (env : Env) : TxFrame :=
  {| tx_has_to := true;
     tx_rows :=
       [ {| datetime := (now env - 365 * 86400)%Z;
            value_eth := 1%R;
            to_ := "0x00000000000000000000000000000000000000aa" |} ] |}.

(** What the scan learns about one candidate: the label info of the service,
    or nothing without an API key. *)
Definition lookup_tag (env : Env) (addr : string) : option TagObj :=
  if ETHERSCAN_API_KEY env then etherscan_tag env addr else None.

(** The candidate is looked up and classified as scam. *)
Definition flagged (env : Env) (addr : string) : bool :=
  Re.fullmatch ETH_ADDRESS_RE addr && is_scam_label (lookup_tag env addr).

(** The candidates of the scan, in the order they are looked up. *)
Definition candidates (df_tx : TxFrame) (max_to_check : nat) : list string :=
  firstn max_to_check
    (map fst (value_counts (map Str.lower (map to_ (tx_rows df_tx))))).

(** A store that holds token transfers for [sample_address] and an empty
    transaction table. *)
Definition env_tokens_only : Env :=
  {| ETHERSCAN_API_KEY := true;
     db_tx := fun t =>
       if (t =? "tx_dadb0d80178819f2319190d340ce9a924f783711")%string
       then Some {| txt_empty_flag := true; txt_has_to := false; txt_rows := [] |}
       else None;
     db_erc20 := fun t =>
       if (t =? "erc20_dadb0d80178819f2319190d340ce9a924f783711")%string
       then Some {| erct_empty_flag := false;
                    erct_has_contractAddress := true;
                    erct_rows :=
                      [ {| contractAddress :=
                             "0xaaaaaaaaaaaaaaaaaaaaaaaaaaaaaaaaaaaaaaaa";
                           tokenSymbol := "PRV" |} ] |}
       else None;
     etherscan_tag := fun _ => None;
     now := 1700000000 |}.

(** The store yields no transaction data for the canonical address [a]: the
    query fails, the table has no rows, or it is the placeholder table with
    the [empty_flag] column. *)
Definition store_has_no_tx (env : Env) (a : string) : bool :=
  match db_tx env ("tx_" ++ Str.drop 2 a) with
  | None => true
  | Some t =>
      match txt_rows t with
      | [] => true
      | _ => txt_empty_flag t
      end
  end.

(** Position of the first occurrence of [x] in a column. *)
Fixpoint first_index (x : string) (l : list string) : nat :=
  match l with
  | [] => O
  | y :: l' => if (y =? x)%string then O else S (first_index x l')
  end.

(** [a] is ranked before [b]: it occurs more often, or as often and it is
    seen first. *)
Definition ranks_before (col : list string) (a b : string) : Prop :=
  (count b col < count a col)%nat \/
  (count a col = count b col /\ (first_index a col < first_index b col)%nat).

(** The spec's ranking scenario: recipients with frequencies 10, 8, 8 and 1,
    the rarest seen first and the most frequent seen last. *)
Definition ranking_column : list string :=
  List.app ["d"; "b"; "c"]%string
    (List.app (repeat "c"%string 7)
       (List.app (repeat "b"%string 7) (repeat "a"%string 10))).

(** The order a stable descending sort by count establishes, given the order
    [before] of the input: more occurrences first; among equal counts, the
    earlier one first. *)
Definition sorted_rel (before : string * nat -> string * nat -> Prop)
  (p q : string * nat) : Prop :=
  (snd q < snd p)%nat \/ (snd p = snd q /\ before p q).

(** A wallet with 908 zero-value transactions to 25 distinct recipients, the
    first one 1157 days before [now]; no API key is configured. *)
Definition recipient (k : nat) : string :=
  ("0x00000000000000000000000000000000000000"
   ++ String (ascii_of_nat (48 + k / 5))
        (String (ascii_of_nat (48 + k mod 5)) EmptyString))%string.

Definition busy_rows : list RawTx :=
  map (fun i => {| raw_timeStamp := 1600000000 + Z.of_nat i;
                   raw_value := 0;
                   raw_to := recipient (i mod 25) |})
      (seq 0 908).

Definition env_busy : Env :=
  {| ETHERSCAN_API_KEY := false;
     db_tx := fun t =>
       if (t =? "tx_dadb0d80178819f2319190d340ce9a924f783711")%string
       then Some {| txt_empty_flag := false; txt_has_to := true;
                    txt_rows := busy_rows |}
       else None;
     db_erc20 := fun _ => None;
     etherscan_tag := fun _ => None;
     now := 1700000000 |}.

Definition busy_frame : TxFrame :=
  {| tx_has_to := true; tx_rows := map load_tx_row busy_rows |}.

(** ** Table identifiers and the frontend's address check *)

(** A character of an unquoted SQL identifier: a lowercase letter, a digit or
    the underscore. *)
Definition is_ident_char (c : ascii) : bool :=
  Re.in_range "a" "z" c || Re.in_range "0" "9" c || Ascii.eqb c "_".

(** [frontend/app.py], [ETH_ADDRESS_RE = re.compile(r"^0x[a-fA-F0-9]{40}$")];
    [backend/main.py] gives the same pattern to the path parameter. *)
Definition FRONTEND_ADDRESS_RE : Re.regex :=
  Re.Cat (Re.Chr "0") (Re.Cat (Re.Chr "x")
    (Re.Repeat 40
       (Re.Alt (Re.Range "a" "f") (Re.Alt (Re.Range "A" "F") (Re.Range "0" "9"))))).

(** [bool(addr and ETH_ADDRESS_RE.fullmatch(addr.strip()))] *)
Definition is_valid_eth_address (addr : string) : bool :=
  negb (addr =? "")%string && Re.fullmatch FRONTEND_ADDRESS_RE (Str.strip addr).

Definition is_mixed_hex_digit (c : ascii) : bool :=
  Re.in_range "a" "f" c || (Re.in_range "A" "F" c || Re.in_range "0" "9" c).

(** ** Ingestion and the store: [backend/data_ingestion.py] *)

(** The store after [DROP TABLE IF EXISTS t; CREATE TABLE t AS ...]. *)
Definition update_table {T : Type} (db : string -> option T) (tname : string)
  (t : T) : string -> option T :=
  fun n => if (n =? tname)%string then Some t else db n.

(** [pd.DataFrame()] as a frame of raw rows. *)
Definition no_tx_table : TxTable :=
  {| txt_empty_flag := false; txt_has_to := false; txt_rows := [] |}.

Definition no_erc20_table : Erc20Table :=
  {| erct_empty_flag := false; erct_has_contractAddress := false; erct_rows := [] |}.

(** [CREATE TABLE t AS SELECT 1 AS empty_flag WHERE 1=0] *)
Definition placeholder_tx_table : TxTable :=
  {| txt_empty_flag := true; txt_has_to := false; txt_rows := [] |}.

Definition placeholder_erc20_table : Erc20Table :=
  {| erct_empty_flag := true; erct_has_contractAddress := false; erct_rows := [] |}.

(** [save_to_db(df, address, table_kind="tx")] for a frame of transaction
    rows.  The store is taken to be writable; the only exception left is the
    one of [table_name]. *)
Definition save_to_db_tx (env : Env) (df : TxTable) (address : string) : result Env :=
  tname <- table_name address "tx" ;;
  let stored :=
    match txt_rows df with
    | [] => placeholder_tx_table
    | _ => df
    end in
  Ok {| ETHERSCAN_API_KEY := ETHERSCAN_API_KEY env;
        db_tx := update_table (db_tx env) tname stored;
        db_erc20 := db_erc20 env;
        etherscan_tag := etherscan_tag env;
        now := now env |}.

(** [save_to_db(df, address, table_kind="erc20")] for a frame of token
    transfers. *)
Definition save_to_db_erc20 (env : Env) (df : Erc20Table) (address : string)
  : result Env :=
  tname <- table_name address "erc20" ;;
  let stored :=
    match erct_rows df with
    | [] => placeholder_erc20_table
    | _ => df
    end in
  Ok {| ETHERSCAN_API_KEY := ETHERSCAN_API_KEY env;
        db_tx := db_tx env;
        db_erc20 := update_table (db_erc20 env) tname stored;
        etherscan_tag := etherscan_tag env;
        now := now env |}.

(** What [fetch_tx_from_db] makes of a stored table. *)
Definition load_tx_table (t : TxTable) : TxFrame :=
  match txt_rows t with
  | [] => empty_tx_frame
  | _ =>
      if txt_empty_flag t then empty_tx_frame
      else {| tx_has_to := txt_has_to t; tx_rows := map load_tx_row (txt_rows t) |}
  end.

Definition load_erc20_table (t : Erc20Table) : Erc20Frame :=
  match erct_rows t with
  | [] => empty_erc20_frame
  | _ =>
      if erct_empty_flag t then empty_erc20_frame
      else {| erc20_has_contractAddress := erct_has_contractAddress t;
              erc20_rows := map load_erc20_row (erct_rows t) |}
  end.

(** The answer of the explorer API to one request: the [status] field and the
    frame that [pd.DataFrame(data["result"])] builds (no rows when the result
    is empty or is a message). *)
Record ApiResponse (T : Type) : Type := {
  api_status : string;
  api_result : T
}.

Arguments api_status {T} _.
Arguments api_result {T} _.

(** The explorer API; [None]: the request or the decoding raised. *)
Record Explorer : Type := {
  txlist : string -> option (ApiResponse TxTable);
  tokentx : string -> option (ApiResponse Erc20Table)
}.

Definition api_key_missing_msg : string :=
  "Etherscan API key is not configured in .env".

Definition get_wallet_transactions (env : Env) (ex : Explorer) (address : string)
  : result TxTable :=
  a <- normalize_address address ;;
  if negb (ETHERSCAN_API_KEY env) then Raise (ValueError api_key_missing_msg)
  else
    Ok match txlist ex a with
       | Some data =>
           match txt_rows (api_result data) with
           | [] => no_tx_table
           | _ =>
               if (api_status data =? "1")%string then api_result data
               else no_tx_table
           end
       | None => no_tx_table
       end.

Definition get_wallet_erc20_transfers (env : Env) (ex : Explorer) (address : string)
  : result Erc20Table :=
  a <- normalize_address address ;;
  if negb (ETHERSCAN_API_KEY env) then Raise (ValueError api_key_missing_msg)
  else
    Ok match tokentx ex a with
       | Some data =>
           match erct_rows (api_result data) with
           | [] => no_erc20_table
           | _ =>
               if (api_status data =? "1")%string then api_result data
               else no_erc20_table
           end
       | None => no_erc20_table
       end.

(** Two ingested transactions of [sample_address]. *)
Definition sample_tx_table : TxTable :=
  {| txt_empty_flag := false;
     txt_has_to := true;
     txt_rows :=
       [ {| raw_timeStamp := 1600000000; raw_value := 1000000000000000000;
            raw_to := "0xDEADBEEFdeadbeefDEADBEEFdeadbeefDEADBEEF" |};
         {| raw_timeStamp := 1650000000; raw_value := 0;
            raw_to := "0x00000000000000000000000000000000000000aa" |} ] |}.

Definition other_address : string :=
  "0x00000000000000000000000000000000000000aa".

(** ** The scoring endpoint: [backend/main.py] *)

(** What a request ends in: the returned score dict, or the raised
    [HTTPException]. *)
Inductive Response : Type :=
| Response200 (score_result : ScoreDict)
| HTTPException (status_code : Z) (detail : string).

Definition no_transactions_detail : string :=
  "No transactions found for the address or API error occurred.".

(** [str(e)] for the exceptions of the model. *)
Definition str_of_exn (e : exn) : string :=
  match e with
  | ValueError msg => msg
  | KeyError key => ("'" ++ key ++ "'")%string
  end.

(** The [try] block of [get_wallet_score]: the two ingested frames, or the
    [HTTPException] it raises. *)
Definition extract_wallet_data (env : Env) (ex : Explorer) (address : string)
  : TxTable * Erc20Table + Response :=
  match get_wallet_transactions env ex address with
  | Raise (ValueError e) => inr (HTTPException 500 e)
  | Raise e =>
      inr (HTTPException 500 ("Error during data extraction: " ++ str_of_exn e)%string)
  | Ok tx_df =>
      match txt_rows tx_df with
      | [] => inr (HTTPException 404 no_transactions_detail)
      | _ =>
          match get_wallet_erc20_transfers env ex address with
          | Raise (ValueError e) => inr (HTTPException 500 e)
          | Raise e =>
              inr (HTTPException 500
                     ("Error during data extraction: " ++ str_of_exn e)%string)
          | Ok erc20_df => inl (tx_df, erc20_df)
          end
      end
  end.

(** [get_wallet_score], for an address that the path pattern has accepted:
    the store after the request and the response.  [Raise] is an exception
    that the function does not turn into an [HTTPException]. *)
Definition get_wallet_score (env : Env) (ex : Explorer) (address : string)
  : result (Env * Response) :=
  match extract_wallet_data env ex address with
  | inr h => Ok (env, h)
  | inl (tx_df, erc20_df) =>
      env1 <- save_to_db_tx env tx_df address ;;
      env2 <- save_to_db_erc20 env1 erc20_df address ;;
      score_result <- calculate_final_score env2 address ;;
      if negb (status score_result =? "OK")%string
      then Ok (env2, HTTPException 500 (status score_result))
      else Ok (env2, Response200 score_result)
  end.

(** The four profile labels. *)
Definition profile_labels : list string :=
  ["Power User - High Reputation"; "Stable User - Medium Reputation";
   "Inactive/New User - Low Reputation"; "Low Trust / Risk-Exposed Wallet"]%string.

(** An environment with an API key and an empty store, and an explorer that
    knows the two transactions of [sample_address]. *)
Definition env_keyed : Env :=
  {| ETHERSCAN_API_KEY := true;
     db_tx := fun _ => None;
     db_erc20 := fun _ => None;
     etherscan_tag := fun _ => None;
     now := 1700000000 |}.

Definition explorer_sample : Explorer :=
  {| txlist := fun a =>
       if (a =? sample_address)%string
       then Some {| api_status := "1"; api_result := sample_tx_table |}
       else Some {| api_status := "0"; api_result := no_tx_table |};
     tokentx := fun _ => None |}.

(** ** Query history of the frontend: [frontend/app.py] *)

(** The keys of a payload that [upsert_history] reads. *)
Record Payload : Type := {
  pl_address : option string;
  pl_final_score : option R;
  pl_profile : option string
}.

Record HistoryItem : Type := {
  h_address : string;
  h_ts : string;
  h_final_score : option R;
  h_profile : option string;
  h_payload : Payload
}.

(** [upsert_history(payload)] on the session's [history]; [ts] is
    [now_str()]. *)
Definition upsert_history (ts : string) (payload : Payload)
  (history : list HistoryItem) : list HistoryItem :=
  match pl_address payload with
  | None => history
  | Some addr =>
      if (addr =? "")%string then history
      else
        firstn 20
          ({| h_address := addr;
              h_ts := ts;
              h_final_score := pl_final_score payload;
              h_profile := pl_profile payload;
              h_payload := payload |}
           :: filter (fun h => negb (h_address h =? addr)%string) history)
  end.

(** The history of a session after a sequence of upserts, oldest first. *)
Definition history_after (events : list (string * Payload)) : list HistoryItem :=
  fold_left (fun h e => upsert_history (fst e) (snd e) h) events [].

Definition sample_payload (addr : string) : Payload :=
  {| pl_address := Some addr; pl_final_score := Some 50%R;
     pl_profile := Some "Inactive/New User - Low Reputation"%string |}.

(** What holds of a history: at most 20 entries, one per address, each with
    a non-empty address and the score and profile of its payload. *)
Definition history_ok (h : list HistoryItem) : Prop :=
  (List.length h <= 20)%nat /\
  NoDup (map h_address h) /\
  Forall (fun i => h_address i <> ""%string /\
                   pl_address (h_payload i) = Some (h_address i) /\
                   h_final_score i = pl_final_score (h_payload i) /\
                   h_profile i = pl_profile (h_payload i)) h.

(** ** Frames used to state how the indicators react to more rows *)

(** The frame [df] with the rows [extra] appended ([pd.concat]). *)
Definition tx_append (df : TxFrame) (extra : list TxRow) : TxFrame :=
  {| tx_has_to := tx_has_to df; tx_rows := List.app (tx_rows df) extra |}.

(** One more transaction of the one-year wallet: 2 ETH to a known scam
    address, 30 days before [now]. *)
Definition scam_row (env : Env) : TxRow :=
  {| datetime := (now env - 30 * 86400)%Z;
     value_eth := 2%R;
     to_ := "0xdeadbeefdeadbeefdeadbeefdeadbeefdeadbeef" |}.

(** The four profiles from the lowest to the highest. *)
Definition profile_rank (p : string) : nat :=
  if (p =? "Power User - High Reputation")%string then 3
  else if (p =? "Stable User - Medium Reputation")%string then 2
  else if (p =? "Inactive/New User - Low Reputation")%string then 1
  else 0.

(** ** The value each indicator rounds, as the spec's table writes it *)

Definition days_since_first_tx (env : Env) (df_tx : TxFrame) : Z :=
  Z.max ((now env - series_min (map datetime (tx_rows df_tx))) / 86400) 0.

Definition unique_recipient_count (df_tx : TxFrame) : nat :=
  if tx_has_to df_tx then List.length (unique (map to_ (tx_rows df_tx))) else O.

Definition general_incidents (df_tx : TxFrame) (tagged_scam_count : Z) : Z :=
  (Z.of_nat (if tx_has_to df_tx
             then count_isin KNOWN_SCAM_ADDRESSES (map to_ (tx_rows df_tx))
             else O)
   + tagged_scam_count)%Z.

Definition asset_incidents (df_tx : TxFrame) (df_erc20 : Erc20Frame) : nat :=
  ((if negb (tx_empty df_tx) && tx_has_to df_tx
    then count_isin MIXER_OR_PRIVACY_TOOLING (map to_ (tx_rows df_tx)) else O)
   + (if negb (erc20_empty df_erc20) && erc20_has_contractAddress df_erc20
      then count_isin PRIVACY_TOKEN_CONTRACTS
             (map contractAddress (erc20_rows df_erc20))
      else O))%nat.

(** [50% * log10(tx_count+1)/log10(5001) + 50% * log10(volume+1)/log10(10001)],
    each term clipped to [[0,1]], times 100; 0 on an empty frame. *)
Definition activity_before_rounding (df_tx : TxFrame) : R :=
  if tx_empty df_tx then 0%R
  else
    ((0.5 * clip (log10 (INR (List.length (tx_rows df_tx)) + 1) / log10 5001) 0 1
      + 0.5 * clip (log10 (sum_R (map value_eth (tx_rows df_tx)) + 1)
                    / log10 10001) 0 1) * 100)%R.

(** [min(100, log(days+1)/log(731) * 100)]; 0 on an empty frame. *)
Definition longevity_before_rounding (env : Env) (df_tx : TxFrame) : R :=
  if tx_empty df_tx then 0%R
  else Rmin 100 (ln (IZR (days_since_first_tx env df_tx) + 1) / ln 731 * 100)%R.

(** [min(100, (unique_recipient_count/25)*100)]; 0 on an empty frame. *)
Definition diversity_before_rounding (df_tx : TxFrame) : R :=
  if tx_empty df_tx then 0%R
  else Rmin 100 (INR (unique_recipient_count df_tx) / 25 * 100)%R.

(** [100 * exp(-0.9 * incidents)] clipped to [[0,100]]; 100 on an empty
    frame. *)
Definition general_risk_before_rounding (df_tx : TxFrame) (tagged_scam_count : Z)
  : R :=
  if tx_empty df_tx then 100%R
  else clip (100 * exp (- (0.9) * IZR (general_incidents df_tx tagged_scam_count)))
         0 100.

(** [100 * exp(-0.6 * incidents)] clipped to [[0,100]]. *)
Definition asset_risk_before_rounding (df_tx : TxFrame) (df_erc20 : Erc20Frame) : R :=
  clip (100 * exp (- (0.6) * INR (asset_incidents df_tx df_erc20))) 0 100.

(** * Proofs *)

(** ** Strings *)

Section StringFacts.

Local Open Scope string_scope.

Lemma append_nil_r (s : string) : s ++ "" = s.
Proof. induction s as [|c s IH]; simpl; [reflexivity | now rewrite IH]. Qed.

Lemma append_assoc (a b c : string) : (a ++ b) ++ c = a ++ (b ++ c).
Proof. induction a as [|x a IH]; simpl; [reflexivity | now rewrite IH]. Qed.

Lemma append_eq_nil (a b : string) : a ++ b = "" -> a = "" /\ b = "".
Proof. destruct a; simpl; intros H; [now split | discriminate]. Qed.

Lemma append_eq_cons (c : ascii) (s a b : string) :
  String c s = a ++ b ->
  (a = "" /\ b = String c s) \/ (exists a', a = String c a' /\ s = a' ++ b).
Proof.
  destruct a as [|x a]; simpl; intros H.
  - left; now split.
  - right; injection H as -> ->. now exists a.
Qed.

Lemma length_append (a b : string) :
  String.length (a ++ b) = (String.length a + String.length b)%nat.
Proof. induction a as [|x a IH]; simpl; [reflexivity | now rewrite IH]. Qed.

Lemma all_chars_append (p : ascii -> bool) (a b : string) :
  Str.all_chars p (a ++ b) = Str.all_chars p a && Str.all_chars p b.
Proof.
  induction a as [|x a IH]; simpl; [reflexivity|].
  now rewrite IH, andb_assoc.
Qed.

End StringFacts.

(** ** The derivative matcher decides the language *)

Module ReFacts.
Import Re.

Local Open Scope string_scope.

Lemma nullable_lang (r : regex) : nullable r = true <-> lang r "".
Proof.
  induction r as [| | c | lo hi | a IHa b IHb | a IHa b IHb]; simpl.
  - split; [discriminate | tauto].
  - split; reflexivity.
  - split; discriminate.
  - split; [discriminate | intros (c & H & _); discriminate].
  - rewrite orb_true_iff, IHa, IHb. reflexivity.
  - rewrite andb_true_iff, IHa, IHb. split.
    + intros [Ha Hb]. exists "", "". auto.
    + intros (s1 & s2 & E & Ha & Hb).
      symmetry in E. apply append_eq_nil in E as [-> ->]. auto.
Qed.

Lemma deriv_lang (c : ascii) (r : regex) :
  forall s, lang (deriv c r) s <-> lang r (String c s).
Proof.
  induction r as [| | d | lo hi | a IHa b IHb | a IHa b IHb]; simpl; intros s.
  - tauto.
  - split; [tauto | discriminate].
  - destruct (Ascii.eqb_spec c d) as [->|N]; simpl.
    + split; [now intros -> | now intros [= ->]].
    + split; [tauto | intros [= E _]; contradiction].
  - destruct (in_range lo hi c) eqn:E; simpl.
    + split; [intros ->; now exists c | now intros (x & [= _ ->] & _)].
    + split; [tauto | intros (x & [= -> _] & H); congruence].
  - rewrite IHa, IHb. reflexivity.
  - assert (main : (exists s1 s2, s = s1 ++ s2 /\ lang (deriv c a) s1 /\ lang b s2)
                   \/ (nullable a = true /\ lang (deriv c b) s)
                   <-> exists s1 s2, String c s = s1 ++ s2 /\ lang a s1 /\ lang b s2).
    { split.
      - intros [(s1 & s2 & -> & Ha & Hb) | [Hn Hb]].
        + exists (String c s1), s2. rewrite <- IHa. auto.
        + exists "", (String c s). rewrite <- nullable_lang, <- IHb. auto.
      - intros (s1 & s2 & E & Ha & Hb).
        apply append_eq_cons in E as [[-> ->] | (a' & -> & ->)].
        + right. rewrite nullable_lang, IHb. auto.
        + left. exists a', s2. rewrite IHa. auto. }
    rewrite <- main. destruct (nullable a) eqn:Hn; simpl.
    + split.
      * intros [H | H]; [now left | right; auto].
      * intros [H | [_ H]]; [now left | now right].
    + split; [now left | intros [H | [H _]]; [exact H | discriminate]].
Qed.

Lemma fullmatch_lang (r : regex) (s : string) :
  fullmatch r s = true <-> lang r s.
Proof.
  revert r. induction s as [|c s IH]; intros r; simpl.
  - apply nullable_lang.
  - rewrite IH. apply deriv_lang.
Qed.

Lemma lang_Repeat_class (lo1 hi1 lo2 hi2 : ascii) (n : nat) (s : string) :
  lang (Repeat n (Alt (Range lo1 hi1) (Range lo2 hi2))) s <->
  String.length s = n /\
  Str.all_chars (fun c => in_range lo1 hi1 c || in_range lo2 hi2 c) s = true.
Proof.
  revert s. induction n as [|n IH]; intros s; simpl.
  - split.
    + intros ->. now split.
    + intros [H _]. now destruct s.
  - split.
    + intros (s1 & s2 & -> & Hc & Hr). apply IH in Hr as [Hl Ha].
      assert (exists c, s1 = String c "" /\
                (in_range lo1 hi1 c || in_range lo2 hi2 c) = true) as (c & -> & Hc').
      { destruct Hc as [(c & -> & H) | (c & -> & H)]; exists c; rewrite H;
          split; auto using orb_true_r. }
      simpl. rewrite Hl, Hc', Ha. now split.
    + intros [Hl Ha]. destruct s as [|c s]; [discriminate|].
      simpl in Hl, Ha. apply andb_true_iff in Ha as [Hc Ha].
      exists (String c ""), s. split; [reflexivity|]. split.
      * apply orb_true_iff in Hc as [H | H]; [left | right]; now exists c.
      * apply IH. split; [lia | exact Ha].
Qed.

End ReFacts.

(** ** Address normalizer *)

Section Normalizer.

Local Open Scope string_scope.

Lemma fullmatch_canonical (a : string) :
  Re.fullmatch ETH_ADDRESS_RE a = true <-> canonical_address a.
Proof.
  rewrite ReFacts.fullmatch_lang. unfold ETH_ADDRESS_RE, canonical_address.
  cbn [Re.lang]. split.
  - intros (s1 & s2 & -> & -> & s3 & s4 & -> & -> & H).
    apply ReFacts.lang_Repeat_class in H. exists s4. now split.
  - intros (h & -> & Hl & Ha).
    exists "0", ("x" ++ h). repeat split.
    exists "x", h. repeat split.
    apply ReFacts.lang_Repeat_class. now split.
Qed.

Lemma hex_digit_plain (c : ascii) : is_hex_digit c = true -> plain c = true.
Proof.
  destruct c as [[] [] [] [] [] [] [] []]; vm_compute; intros H;
    first [reflexivity | discriminate H].
Qed.

Lemma lower_plain (s : string) : Str.all_chars plain s = true -> Str.lower s = s.
Proof.
  induction s as [|c s IH]; simpl; [reflexivity|].
  intros H. apply andb_true_iff in H as [Hc Hs].
  apply andb_true_iff in Hc as [_ Hc]. apply Ascii.eqb_eq in Hc.
  now rewrite Hc, IH.
Qed.

Lemma lstrip_plain (s : string) : Str.all_chars plain s = true -> Str.lstrip s = s.
Proof.
  destruct s as [|c s]; simpl; [reflexivity|].
  intros H. apply andb_true_iff in H as [Hc _].
  apply andb_true_iff in Hc as [Hc _]. apply negb_true_iff in Hc.
  now rewrite Hc.
Qed.

Lemma rstrip_plain (s : string) : Str.all_chars plain s = true -> Str.rstrip s = s.
Proof.
  induction s as [|c s IH]; simpl; [reflexivity|].
  intros H. apply andb_true_iff in H as [Hc Hs].
  apply andb_true_iff in Hc as [Hc _]. apply negb_true_iff in Hc.
  rewrite (IH Hs), Hc. now destruct s.
Qed.

Lemma canonical_plain (a : string) :
  canonical_address a -> Str.all_chars plain a = true.
Proof.
  intros (h & -> & _ & Ha). simpl.
  change (Str.all_chars plain h = true).
  induction h as [|c h IH]; simpl in *; [reflexivity|].
  apply andb_true_iff in Ha as [Hc Ha].
  now rewrite (hex_digit_plain c Hc), IH.
Qed.

Lemma canonical_fixed (a : string) :
  canonical_address a -> Str.lower (Str.strip a) = a.
Proof.
  intros H. apply canonical_plain in H. unfold Str.strip.
  now rewrite (lstrip_plain a H), (rstrip_plain a H), (lower_plain a H).
Qed.

Lemma normalize_address_Ok (x a : string) :
  normalize_address x = Ok a <->
  a = Str.lower (Str.strip x) /\ canonical_address a.
Proof.
  unfold normalize_address.
  destruct (Re.fullmatch ETH_ADDRESS_RE (Str.lower (Str.strip x))) eqn:E; simpl.
  - apply fullmatch_canonical in E. split.
    + intros [= <-]. now split.
    + intros [-> _]. reflexivity.
  - split; [discriminate|]. intros [-> H].
    apply fullmatch_canonical in H. congruence.
Qed.

Lemma normalize_address_canonical (a : string) :
  canonical_address a -> normalize_address a = Ok a.
Proof.
  intros H. apply normalize_address_Ok. now rewrite (canonical_fixed a H).
Qed.

Lemma normalize_address_raises (x : string) (e : exn) :
  normalize_address x = Raise e -> e = ValueError invalid_address_msg.
Proof.
  unfold normalize_address.
  destruct (Re.fullmatch ETH_ADDRESS_RE (Str.lower (Str.strip x))); simpl;
    [discriminate | now intros [= <-]].
Qed.

End Normalizer.

Section NormalizerSpec.

Local Open Scope string_scope.

(** C6. Address normalization is idempotent: normalizing the result of a
    successful normalization returns it unchanged, so
    [normalize(normalize(x)) = normalize(x)]; and every string whose trimmed,
    lowercased form is not [0x] followed by exactly 40 hexadecimal digits is
    rejected with the invalid-address-format error. *)
Theorem normalize_address_idempotent_and_strict (x : string) :
  (a <- normalize_address x ;; normalize_address a) = normalize_address x /\
  (forall a, normalize_address x = Ok a -> normalize_address a = Ok a) /\
  (~ canonical_address (Str.lower (Str.strip x)) ->
   normalize_address x = Raise (ValueError "Invalid Ethereum address format")).
Proof.
  assert (idem : forall a, normalize_address x = Ok a -> normalize_address a = Ok a).
  { intros a H. apply normalize_address_Ok in H as [_ H].
    now apply normalize_address_canonical. }
  split; [|split].
  - destruct (normalize_address x) as [a|e] eqn:E; simpl; auto.
  - exact idem.
  - intros H. destruct (normalize_address x) as [a|e] eqn:E.
    + apply normalize_address_Ok in E as [-> E]. contradiction.
    + now rewrite (normalize_address_raises x e E).
Qed.

Lemma normalize_address_idempotent_and_strict_witness :
  normalize_address "  0xDEADBEEFdeadbeefDEADBEEFdeadbeefDEADBEEF "
    = Ok "0xdeadbeefdeadbeefdeadbeefdeadbeefdeadbeef" /\
  normalize_address "0xdeadbeefdeadbeefdeadbeefdeadbeefdeadbeef"
    = Ok "0xdeadbeefdeadbeefdeadbeefdeadbeefdeadbeef" /\
  normalize_address "0xdeadbeef"
    = Raise (ValueError "Invalid Ethereum address format").
Proof.
  split; [reflexivity | split].
  - apply (proj1 (proj2 (normalize_address_idempotent_and_strict
             "  0xDEADBEEFdeadbeefDEADBEEFdeadbeefDEADBEEF "))).
    reflexivity.
  - apply (proj2 (proj2 (normalize_address_idempotent_and_strict "0xdeadbeef"))).
    intros (h & E & L & _). simpl in E. injection E as <-. discriminate L.
Defined.

End NormalizerSpec.

(** ** Scam classifier *)

Section Classifier.

Local Open Scope string_scope.

Lemma prefix_spec (m s : string) : prefix m s = true <-> exists b, s = m ++ b.
Proof.
  revert s. induction m as [|c m IH]; intros s.
  - destruct s; simpl; split; eauto.
  - destruct s as [|d s]; simpl.
    + split; [discriminate | intros (b & H); discriminate].
    + destruct (ascii_dec c d) as [->|N].
      * rewrite IH. split; intros (b & H); exists b; [now rewrite H | now injection H].
      * split; [discriminate | intros (b & [= E _]); congruence].
Qed.

Lemma contains_spec (m s : string) : Str.contains m s = true <-> Substring m s.
Proof.
  induction s as [|c s IH]; cbn [Str.contains].
  - rewrite orb_false_r, prefix_spec. split.
    + intros (b & H). now exists "", b.
    + intros (a & b & H). symmetry in H.
      apply append_eq_nil in H as [-> H]. simpl in H. now exists b.
  - rewrite orb_true_iff, prefix_spec, IH. split.
    + intros [(b & H) | (a & b & H)].
      * now exists "", b.
      * exists (String c a), b. simpl. now rewrite H.
    + intros ([|x a] & b & H); simpl in H.
      * left. now exists b.
      * right. injection H as _ H. now exists a, b.
Qed.

Lemma append_eq_append (p r a t : string) :
  p ++ r = a ++ t ->
  (exists u, a = p ++ u /\ r = u ++ t) \/ (exists u, p = a ++ u /\ t = u ++ r).
Proof.
  revert a. induction p as [|c p IH]; intros a H; simpl in H.
  - left. now exists a.
  - destruct a as [|d a]; simpl in H.
    + right. now exists (String c p).
    + injection H as -> H. destruct (IH a H) as [(u & -> & ->) | (u & -> & ->)].
      * left. now exists u.
      * right. now exists u.
Qed.

Lemma no_space_split (m v w : string) :
  no_space m = true -> m = v ++ String " " w -> False.
Proof.
  intros H ->. unfold no_space in H. rewrite all_chars_append in H.
  apply andb_true_iff in H as [_ H]. simpl in H. discriminate.
Qed.

(** An occurrence of a space-free string never straddles a separator. *)
Lemma Substring_sep (m a b : string) :
  m <> "" -> no_space m = true ->
  Substring m (a ++ " " ++ b) -> Substring m a \/ Substring m b.
Proof.
  intros Hne Hm (p & q & H). symmetry in H.
  apply append_eq_append in H as [(u & -> & H) | (u & -> & H)].
  - apply append_eq_append in H as [(v & -> & ->) | (v & -> & H)].
    + left. now exists p, v.
    + destruct v as [|c v]; simpl in H.
      * left. exists p, "". now rewrite !append_nil_r.
      * injection H as <- _. exfalso. now apply (no_space_split _ u v Hm).
  - destruct u as [|c u]; simpl in H.
    + destruct m as [|c m]; [contradiction|]. simpl in H. injection H as <- _.
      exfalso. now apply (no_space_split _ "" m Hm).
    + injection H as _ ->. right. now exists u, q.
Qed.

Lemma Substring_concat (m : string) (l : list string) :
  m <> "" -> no_space m = true ->
  (Substring m (String.concat " " l) <-> exists x, In x l /\ Substring m x).
Proof.
  intros Hne Hm. induction l as [|x l IH].
  - simpl. split.
    + intros (a & b & H). symmetry in H.
      apply append_eq_nil in H as [_ H]. apply append_eq_nil in H as [H _].
      contradiction.
    + intros (x & [] & _).
  - destruct l as [|y l].
    + simpl. split.
      * intros H. exists x. auto.
      * intros (z & [<- | []] & H). exact H.
    + change (String.concat " " (x :: y :: l))
        with (x ++ " " ++ String.concat " " (y :: l)).
      split.
      * intros H. apply Substring_sep in H as [H | H]; auto.
        -- exists x. split; [now left | exact H].
        -- apply IH in H as (z & Hz & H). exists z. split; [now right | exact H].
      * intros (z & [<- | Hz] & (a & b & H)).
        -- exists a, (b ++ " " ++ String.concat " " (y :: l)).
           rewrite H. now rewrite !append_assoc.
        -- assert (S : Substring m (String.concat " " (y :: l))).
           { apply IH. exists z. split; [exact Hz | now exists a, b]. }
           destruct S as (a' & b' & ->).
           exists (x ++ " " ++ a'), b'. now rewrite !append_assoc.
Qed.

Lemma scam_markers_plain (m : string) :
  In m scam_markers -> m <> "" /\ no_space m = true /\ Str.lower m = m.
Proof.
  unfold scam_markers. simpl.
  intros H. repeat (destruct H as [<- | H]; [repeat split; discriminate |]).
  contradiction.
Qed.

Lemma any_marker_spec (l : list string) :
  existsb (fun m => Str.contains m (String.concat " " (map Str.lower l)))
    scam_markers = true <->
  exists s m, In s l /\ In m scam_markers /\ Substring m (Str.lower s).
Proof.
  rewrite existsb_exists. split.
  - intros (m & Hm & H). apply contains_spec in H.
    destruct (scam_markers_plain m Hm) as (Hne & Hsp & _).
    apply Substring_concat in H as (x & Hx & H); auto.
    apply in_map_iff in Hx as (s & <- & Hs). now exists s, m.
  - intros (s & m & Hs & Hm & H). exists m. split; [exact Hm|].
    apply contains_spec.
    destruct (scam_markers_plain m Hm) as (Hne & Hsp & _).
    apply Substring_concat; auto.
    exists (Str.lower s). split; [now apply in_map | exact H].
Qed.

(** C7. The scam classifier returns true exactly when at least one label or
    slug string of the label info, lowercased, contains one of the nine
    markers as a substring; for absent or empty label info it returns
    false. *)
Theorem is_scam_label_iff_marker (tag_obj : option TagObj) :
  (is_scam_label tag_obj = true <->
   exists t s m,
     tag_obj = Some t /\ In s (labels t ++ labels_slug t) /\
     In m ["phish"; "hack"; "scam"; "drainer"; "malicious"; "exploit";
           "fraud"; "blacklist"; "ofac"] /\
     Substring m (Str.lower s)) /\
  is_scam_label None = false /\
  is_scam_label (Some {| labels := []; labels_slug := [] |}) = false.
Proof.
  split; [| split; reflexivity].
  destruct tag_obj as [t|]; cbn [is_scam_label].
  - rewrite orb_true_iff, !any_marker_spec. split.
    + intros [(s & m & Hs & Hm & H) | (s & m & Hs & Hm & H)];
        exists t, s, m; repeat split; auto; apply in_or_app; auto.
    + intros (t' & s & m & [= <-] & Hs & Hm & H).
      apply in_app_or in Hs as [Hs | Hs]; [left | right]; now exists s, m.
  - split; [discriminate | intros (t & s & m & H & _); discriminate].
Qed.

(** The match is a substring match on lowercased text: it accepts a benign
    label that contains a marker. *)
Example is_scam_label_overmatch :
  is_scam_label (Some {| labels := ["ETH Hackathon"]; labels_slug := [] |}) = true /\
  is_scam_label (Some {| labels := ["Exchange"]; labels_slug := ["PHISHING"] |}) = true /\
  is_scam_label (Some {| labels := ["Exchange"; "ph ish"]; labels_slug := ["dex"] |})
    = false.
Proof. repeat split; reflexivity. Qed.

End Classifier.

(** ** Rounding *)

Section Rounding.

Local Open Scope R_scope.

Lemma Int_part_bounds (x : R) : IZR (Int_part x) <= x < IZR (Int_part x) + 1.
Proof. destruct (base_Int_part x) as [H1 H2]. lra. Qed.

Lemma IZR_lt_succ (a b : Z) : IZR a < IZR b + 1 -> (a <= b)%Z.
Proof.
  intros H. rewrite <- plus_IZR in H. apply lt_IZR in H. lia.
Qed.

(** A real within one half of an integer rounds to it. *)
Lemma round_half_even_near (x : R) (n : Z) :
  IZR n - 1 / 2 < x < IZR n + 1 / 2 -> round_half_even x = n.
Proof.
  intros [Hlo Hhi]. unfold round_half_even.
  pose proof (Int_part_bounds x) as [Hf1 Hf2].
  set (f := Int_part x) in *.
  destruct (Rlt_dec (x - IZR f) (1 / 2)) as [Hd | Hd].
  - assert (n <= f)%Z by (apply IZR_lt_succ; lra).
    assert (f <= n)%Z by (apply IZR_lt_succ; lra). lia.
  - destruct (Rlt_dec (1 / 2) (x - IZR f)) as [Hd' | Hd'].
    + assert (n <= f + 1)%Z by (apply IZR_lt_succ; rewrite plus_IZR; lra).
      assert (f + 1 <= n)%Z.
      { apply IZR_lt_succ. rewrite plus_IZR. lra. }
      lia.
    + exfalso. assert (E : x = IZR f + 1 / 2) by lra.
      assert (n <= f)%Z by (apply IZR_lt_succ; lra).
      assert (f + 1 <= n)%Z by (apply IZR_lt_succ; rewrite plus_IZR; lra).
      lia.
Qed.

Lemma round_half_even_IZR (n : Z) : round_half_even (IZR n) = n.
Proof. apply round_half_even_near. lra. Qed.

(** Rounding moves a real by at most one half. *)
Lemma round_half_even_error (x : R) :
  IZR (round_half_even x) - 1 / 2 <= x <= IZR (round_half_even x) + 1 / 2.
Proof.
  unfold round_half_even.
  pose proof (Int_part_bounds x) as [Hf1 Hf2].
  set (f := Int_part x) in *.
  destruct (Rlt_dec (x - IZR f) (1 / 2)) as [Hd | Hd]; [lra|].
  destruct (Rlt_dec (1 / 2) (x - IZR f)) as [Hd' | Hd'].
  - rewrite plus_IZR. lra.
  - destruct (Z.even f); [lra | rewrite plus_IZR; lra].
Qed.

Lemma round_half_even_mono (x y : R) :
  x <= y -> (round_half_even x <= round_half_even y)%Z.
Proof.
  intros Hxy.
  destruct (Z_le_gt_dec (round_half_even x) (round_half_even y)) as [H | H];
    [exact H | exfalso].
  pose proof (round_half_even_error x) as [Hx _].
  pose proof (round_half_even_error y) as [_ Hy].
  assert (Hz : (round_half_even y + 1 <= round_half_even x)%Z) by lia.
  apply IZR_le in Hz. rewrite plus_IZR in Hz.
  assert (E : x = y) by lra. subst y. lia.
Qed.

Lemma round2_exact (n : Z) : round2 (IZR n / 100) = IZR n / 100.
Proof.
  unfold round2. replace (IZR n / 100 * 100) with (IZR n) by lra.
  now rewrite round_half_even_IZR.
Qed.

Lemma round2_near (x : R) (n : Z) :
  IZR n - 1 / 2 < x * 100 < IZR n + 1 / 2 -> round2 x = IZR n / 100.
Proof.
  intros H. unfold round2. now rewrite (round_half_even_near _ n H).
Qed.

Lemma round2_mono (x y : R) : x <= y -> round2 x <= round2 y.
Proof.
  intros H. unfold round2.
  assert (Hz : (round_half_even (x * 100) <= round_half_even (y * 100))%Z)
    by (apply round_half_even_mono; lra).
  apply IZR_le in Hz. lra.
Qed.

Lemma round2_0 : round2 0 = 0.
Proof. replace 0 with (IZR 0 / 100) at 1 by lra. rewrite round2_exact. lra. Qed.

Lemma round2_100 : round2 100 = 100.
Proof.
  replace 100 with (IZR 10000 / 100) at 1 by lra. rewrite round2_exact. lra.
Qed.

(** Rounding to two decimals keeps a score inside [[0, 100]]. *)
Lemma round2_bounds (x : R) : 0 <= x <= 100 -> 0 <= round2 x <= 100.
Proof.
  intros [H0 H1]. split.
  - rewrite <- round2_0. now apply round2_mono.
  - rewrite <- round2_100. now apply round2_mono.
Qed.

Lemma clip_bounds (x lo hi : R) : lo <= hi -> lo <= clip x lo hi <= hi.
Proof.
  intros H. unfold clip, Rmin, Rmax.
  destruct (Rle_dec x lo); destruct (Rle_dec _ hi); lra.
Qed.

End Rounding.

(** ** Score aggregator *)

Section Aggregator.

Local Open Scope R_scope.

Lemma weighted_sum_indicators_dict (A L D G K : R) :
  weighted_sum (indicators_dict A L D G K) WEIGHTS 0
  = Ok (0 + A * 25 + L * 20 + D * 25 + G * 25 + K * 5).
Proof. reflexivity. Qed.

Lemma weighted_final_score_dict (A L D G K : R) :
  weighted_final_score (indicators_dict A L D G K)
  = Ok ((A * 25 + L * 20 + D * 25 + G * 25 + K * 5) / 100).
Proof.
  unfold weighted_final_score. rewrite weighted_sum_indicators_dict. simpl.
  f_equal. lra.
Qed.

Lemma aggregate_dict (env : Env) (a : string) (A L D G K : R)
  (n : nat) (sample : list string) :
  exists d,
    aggregate env a (indicators_dict A L D G K) n sample = Ok d /\
    status d = "OK"%string /\
    final_score d
      = Some (round2 ((A * 25 + L * 20 + D * 25 + G * 25 + K * 5) / 100)) /\
    profile d =
      Some (classify_profile ((A * 25 + L * 20 + D * 25 + G * 25 + K * 5) / 100)) /\
    indicators d = indicators_dict A L D G K.
Proof.
  unfold aggregate. rewrite weighted_final_score_dict. simpl.
  eexists. split; [reflexivity|]. simpl. auto.
Qed.

End Aggregator.

Section AggregatorSpec.

Local Open Scope R_scope.

(** C1. For every five indicator values the final score computed by the
    aggregator is the sum of the indicator values times their fixed weights
    (Activity 25, Longevity 20, Diversity 25, General_Risk 25, Asset_Risk 5,
    summing to 100) divided by 100; when every indicator lies in [[0,100]]
    this score lies in [[0,100]], and so does the two-decimal rounding of it
    that the returned dict carries. *)
Theorem final_score_is_weighted_mean (A L D G K : R) :
  WEIGHTS = [("Activity_Score", 25); ("Longevity_Score", 20);
             ("Diversity_Score", 25); ("General_Risk_Score", 25);
             ("Asset_Risk_Score", 5)]%string%Z /\
  fold_right Z.add 0%Z (map snd WEIGHTS) = 100%Z /\
  weighted_final_score (indicators_dict A L D G K)
    = Ok ((A * 25 + L * 20 + D * 25 + G * 25 + K * 5) / 100) /\
  (0 <= A <= 100 -> 0 <= L <= 100 -> 0 <= D <= 100 -> 0 <= G <= 100 ->
   0 <= K <= 100 ->
   0 <= (A * 25 + L * 20 + D * 25 + G * 25 + K * 5) / 100 <= 100 /\
   forall env a n sample, exists d,
     aggregate env a (indicators_dict A L D G K) n sample = Ok d /\
     final_score d
       = Some (round2 ((A * 25 + L * 20 + D * 25 + G * 25 + K * 5) / 100)) /\
     0 <= round2 ((A * 25 + L * 20 + D * 25 + G * 25 + K * 5) / 100) <= 100).
Proof.
  split; [reflexivity|]. split; [reflexivity|].
  split; [apply weighted_final_score_dict|].
  intros HA HL HD HG HK.
  assert (B : 0 <= (A * 25 + L * 20 + D * 25 + G * 25 + K * 5) / 100 <= 100) by lra.
  split; [exact B|].
  intros env a n sample.
  destruct (aggregate_dict env a A L D G K n sample) as (d & E & _ & F & _).
  exists d. split; [exact E|]. split; [exact F|].
  now apply round2_bounds.
Qed.

Lemma final_score_is_weighted_mean_witness :
  0 <= (40 * 25 + 100 * 20 + 8 * 25 + 100 * 25 + 100 * 5) / 100 <= 100 /\
  exists d,
    aggregate env_offline sample_address (indicators_dict 40 100 8 100 100) 0 []
      = Ok d /\
    final_score d
      = Some (round2 ((40 * 25 + 100 * 20 + 8 * 25 + 100 * 25 + 100 * 5) / 100)) /\
    0 <= round2 ((40 * 25 + 100 * 20 + 8 * 25 + 100 * 25 + 100 * 5) / 100) <= 100.
Proof.
  destruct (final_score_is_weighted_mean 40 100 8 100 100) as (_ & _ & _ & H).
  destruct H as [B F]; try lra.
  split; [exact B | exact (F env_offline sample_address O [])].
Defined.

Lemma classify_profile_cases (fs : R) :
  (85 <= fs -> classify_profile fs = "Power User - High Reputation"%string) /\
  (60 <= fs < 85 -> classify_profile fs = "Stable User - Medium Reputation"%string) /\
  (30 <= fs < 60 -> classify_profile fs = "Inactive/New User - Low Reputation"%string) /\
  (fs < 30 -> classify_profile fs = "Low Trust / Risk-Exposed Wallet"%string).
Proof.
  unfold classify_profile.
  repeat split; intros H;
    destruct (Rge_dec fs 85); try lra;
    destruct (Rge_dec fs 60); try lra;
    destruct (Rge_dec fs 30); try lra; reflexivity.
Qed.

(** The reals that round to a given two-decimal value. *)
Lemma round2_inv (x : R) (n : Z) :
  round2 x = IZR n / 100 -> IZR n - 1 / 2 <= x * 100 <= IZR n + 1 / 2.
Proof.
  unfold round2. intros H.
  assert (E : IZR (round_half_even (x * 100)) = IZR n) by lra.
  apply eq_IZR in E. rewrite <- E. apply round_half_even_error.
Qed.

Lemma aggregate_inv (env : Env) (a : string) (ind : list (string * R))
  (n : nat) (sample : list string) (d : ScoreDict) :
  aggregate env a ind n sample = Ok d ->
  exists fs, weighted_final_score ind = Ok fs /\
             final_score d = Some (round2 fs) /\
             profile d = Some (classify_profile fs).
Proof.
  unfold aggregate. destruct (weighted_final_score ind) as [fs|e]; simpl;
    [|discriminate].
  intros [= <-]. exists fs. simpl. auto.
Qed.

(** C2, as the code has it.  The profile is decided on the weighted score
    before it is rounded, with inclusive lower bounds tested top-down: a
    score of exactly 85 is a Power User, exactly 60 a Stable User, exactly 30
    an Inactive/New User.  The returned final_score is that score rounded to
    two decimals: a returned 84.99 comes with Stable User and a returned
    29.99 with Low Trust, while a returned 85.00, 60.00 or 30.00 comes with
    the class of the boundary or, when the unrounded score is less than
    0.005 below it, with the class just under it. *)
Theorem profile_classified_before_rounding
  (env : Env) (a : string) (ind : list (string * R)) (n : nat)
  (sample : list string) (d : ScoreDict) :
  aggregate env a ind n sample = Ok d ->
  exists fs,
    weighted_final_score ind = Ok fs /\
    final_score d = Some (round2 fs) /\
    profile d = Some (classify_profile fs) /\
    (85 <= fs -> profile d = Some "Power User - High Reputation"%string) /\
    (60 <= fs < 85 -> profile d = Some "Stable User - Medium Reputation"%string) /\
    (30 <= fs < 60 -> profile d = Some "Inactive/New User - Low Reputation"%string) /\
    (fs < 30 -> profile d = Some "Low Trust / Risk-Exposed Wallet"%string) /\
    (final_score d = Some 84.99 ->
     profile d = Some "Stable User - Medium Reputation"%string) /\
    (final_score d = Some 29.99 ->
     profile d = Some "Low Trust / Risk-Exposed Wallet"%string) /\
    (final_score d = Some 85 ->
     profile d = Some "Power User - High Reputation"%string \/
     (84.995 <= fs < 85 /\
      profile d = Some "Stable User - Medium Reputation"%string)) /\
    (final_score d = Some 60 ->
     profile d = Some "Stable User - Medium Reputation"%string \/
     (59.995 <= fs < 60 /\
      profile d = Some "Inactive/New User - Low Reputation"%string)) /\
    (final_score d = Some 30 ->
     profile d = Some "Inactive/New User - Low Reputation"%string \/
     (29.995 <= fs < 30 /\
      profile d = Some "Low Trust / Risk-Exposed Wallet"%string)).
Proof.
  intros H. apply aggregate_inv in H as (fs & Hw & Hf & Hp).
  exists fs. rewrite Hp, Hf.
  destruct (classify_profile_cases fs) as (P1 & P2 & P3 & P4).
  repeat split; auto; try (intros Hfs; f_equal; auto; fail).
  - intros [= Hr]. f_equal. apply P2.
    apply (round2_inv fs 8499) in Hr; lra.
  - intros [= Hr]. f_equal. apply P4.
    apply (round2_inv fs 2999) in Hr; lra.
  - intros [= Hr]. assert (Hr' : round2 fs = IZR 8500 / 100) by lra.
    apply round2_inv in Hr'.
    destruct (Rle_dec 85 fs); [left | right; split; [lra|]];
      f_equal; [apply P1 | apply P2]; lra.
  - intros [= Hr]. assert (Hr' : round2 fs = IZR 6000 / 100) by lra.
    apply round2_inv in Hr'.
    destruct (Rle_dec 60 fs); [left | right; split; [lra|]];
      f_equal; [apply P2 | apply P3]; lra.
  - intros [= Hr]. assert (Hr' : round2 fs = IZR 3000 / 100) by lra.
    apply round2_inv in Hr'.
    destruct (Rle_dec 30 fs); [left | right; split; [lra|]];
      f_equal; [apply P3 | apply P4]; lra.
Qed.

End AggregatorSpec.

Section AggregatorExamples.

Local Open Scope R_scope.

Lemma profile_classified_before_rounding_witness :
  exists d,
    aggregate env_offline sample_address (indicators_dict 85 85 85 85 85) 0 []
      = Ok d /\
    profile d = Some "Power User - High Reputation"%string.
Proof.
  destruct (aggregate_dict env_offline sample_address 85 85 85 85 85 O [])
    as (d & E & _).
  exists d. split; [exact E|].
  destruct (profile_classified_before_rounding _ _ _ _ _ _ E)
    as (fs & Hw & _ & _ & P1 & _).
  apply P1. rewrite weighted_final_score_dict in Hw.
  injection Hw as <-. lra.
Defined.

(** Indicators 39.99, 100, 100, 100, 100 give the weighted score 84.9975:
    the returned final_score is 85.00 and the profile is Stable User. *)
Lemma returned_85_is_stable_user :
  exists d,
    aggregate env_offline sample_address
      (indicators_dict 39.99 100 100 100 100) 0 [] = Ok d /\
    final_score d = Some 85 /\
    profile d = Some "Stable User - Medium Reputation"%string /\
    profile d <> Some "Power User - High Reputation"%string.
Proof.
  destruct (aggregate_dict env_offline sample_address 39.99 100 100 100 100 O [])
    as (d & E & _ & F & P & _).
  exists d. split; [exact E|].
  assert (V : (39.99 * 25 + 100 * 20 + 100 * 25 + 100 * 25 + 100 * 5) / 100
              = 84.9975) by lra.
  rewrite V in F, P.
  assert (P' : profile d = Some "Stable User - Medium Reputation"%string).
  { rewrite P. f_equal. apply classify_profile_cases. lra. }
  split; [|split; [exact P' | rewrite P'; discriminate]].
  rewrite F, (round2_near 84.9975 8500); [f_equal|]; lra.
Qed.

End AggregatorExamples.

(** ** Logarithms of integers, bounded by comparing integer powers *)

Section Logarithms.

Local Open Scope R_scope.

Lemma ln_pos (x : R) : 1 < x -> 0 < ln x.
Proof. intros H. rewrite <- ln_1. apply ln_increasing; lra. Qed.

Lemma ln_nonneg (x : R) : 1 <= x -> 0 <= ln x.
Proof.
  intros [H | <-]; [left; now apply ln_pos | rewrite ln_1; lra].
Qed.

(** [b^p < a^q] gives [p * ln b < q * ln a]. *)
Lemma ln_pow_lt (a b : Z) (p q : nat) :
  (0 < a)%Z -> (0 < b)%Z ->
  (b ^ Z.of_nat p < a ^ Z.of_nat q)%Z ->
  INR p * ln (IZR b) < INR q * ln (IZR a).
Proof.
  intros Ha Hb H.
  apply IZR_lt in Ha, Hb.
  rewrite <- !ln_pow by assumption.
  apply ln_increasing.
  - now apply pow_lt.
  - rewrite !pow_IZR. now apply IZR_lt.
Qed.

(** [p1/q1 < ln a / ln b < p2/q2] from two comparisons of integer powers. *)
Lemma ln_ratio_bounds (a b : Z) (p1 q1 p2 q2 : nat) :
  (1 < a)%Z -> (1 < b)%Z ->
  (b ^ Z.of_nat p1 < a ^ Z.of_nat q1)%Z ->
  (a ^ Z.of_nat q2 < b ^ Z.of_nat p2)%Z ->
  (0 < q1)%nat -> (0 < q2)%nat ->
  INR p1 / INR q1 < ln (IZR a) / ln (IZR b) < INR p2 / INR q2.
Proof.
  intros Ha Hb H1 H2 Hq1 Hq2.
  assert (Lb : 0 < ln (IZR b)) by (apply ln_pos; apply IZR_lt; lia).
  apply (ln_pow_lt a b p1 q1) in H1; try lia.
  apply (ln_pow_lt b a q2 p2) in H2; try lia.
  apply lt_0_INR in Hq1, Hq2.
  split.
  - apply Rmult_lt_reg_r with (INR q1 * ln (IZR b)); [nra|].
    field_simplify; [lra | lra | lra].
  - apply Rmult_lt_reg_r with (INR q2 * ln (IZR b)); [nra|].
    field_simplify; [lra | lra | lra].
Qed.

Lemma ln_366_731 : 0.89505 < ln 366 / ln 731 < 0.89515.
Proof.
  pose proof (ln_ratio_bounds 366 731 145 162 128 143) as H.
  assert (B : INR 145 / INR 162 < ln 366 / ln 731 < INR 128 / INR 143).
  { apply H; try lia; vm_compute; reflexivity. }
  rewrite !INR_IZR_INZ in B. simpl in B.
  lra.
Qed.

End Logarithms.

(** ** Indicators *)

Section IndicatorFacts.

Local Open Scope R_scope.

Lemma tx_empty_nil (df : TxFrame) : tx_empty df = true <-> tx_rows df = [].
Proof. unfold tx_empty. destruct (tx_rows df); split; congruence. Qed.

Lemma ln_731_pos : 0 < ln (730 + 1).
Proof. apply ln_pos. lra. Qed.

(** The value each indicator hands to [round]. *)
Lemma longevity_clipped (env : Env) (df : TxFrame) :
  exists v, 0 <= v <= 100 /\ calculate_longevity_score env df = round2 v.
Proof.
  unfold calculate_longevity_score. destruct (tx_empty df).
  - exists 0. rewrite round2_0. split; [lra | reflexivity].
  - cbv zeta.
    set (days := Z.max _ 0).
    destruct (Rlt_dec 0 (ln (730 + 1))) as [Hd | Hd];
      [| exists 0; split; [lra | unfold Rmin; destruct (Rle_dec 0 100); [reflexivity | lra]]].
    eexists. split; [|reflexivity].
    assert (0 <= ln (IZR days + 1)).
    { apply ln_nonneg. assert (0 <= days)%Z by apply Z.le_max_r.
      assert (0 <= IZR days) by now apply IZR_le. lra. }
    assert (0 <= ln (IZR days + 1) / ln (730 + 1) * 100).
    { apply Rmult_le_pos; [|lra]. apply Rmult_le_pos; [assumption|].
      left. now apply Rinv_0_lt_compat. }
    unfold Rmin. destruct (Rle_dec _ 100); lra.
Qed.

Lemma activity_clipped (df : TxFrame) :
  exists v, 0 <= v <= 100 /\ calculate_activity_score df = round2 v.
Proof.
  unfold calculate_activity_score. destruct (tx_empty df).
  - exists 0. rewrite round2_0. split; [lra | reflexivity].
  - cbv zeta. eexists. split; [|reflexivity].
    match goal with
    | |- _ <= (0.5 * clip ?a 0 1 + 0.5 * clip ?b 0 1) * 100 <= _ =>
        pose proof (clip_bounds a 0 1); pose proof (clip_bounds b 0 1)
    end.
    lra.
Qed.

Lemma diversity_clipped (df : TxFrame) :
  exists v, 0 <= v <= 100 /\ calculate_diversity_score df = round2 v.
Proof.
  unfold calculate_diversity_score. destruct (tx_empty df).
  - exists 0. rewrite round2_0. split; [lra | reflexivity].
  - cbv zeta. eexists. split; [|reflexivity].
    destruct (Rlt_dec 0 25); [|lra].
    match goal with |- context [INR ?n] => pose proof (pos_INR n) end.
    unfold Rmin. destruct (Rle_dec 100 _); lra.
Qed.

Lemma general_risk_clipped (df : TxFrame) (tagged : Z) :
  exists v, 0 <= v <= 100 /\ calculate_general_risk_score df tagged = round2 v.
Proof.
  unfold calculate_general_risk_score. destruct (tx_empty df).
  - exists 100. rewrite round2_100. split; [lra | reflexivity].
  - cbv zeta. eexists. split; [|reflexivity]. apply clip_bounds. lra.
Qed.

Lemma asset_risk_clipped (df : TxFrame) (df_erc20 : Erc20Frame) :
  exists v, 0 <= v <= 100 /\ calculate_asset_risk_score df df_erc20 = round2 v.
Proof.
  unfold calculate_asset_risk_score. cbv zeta.
  eexists. split; [|reflexivity]. apply clip_bounds. lra.
Qed.

Lemma clipped_bounds (s : R) :
  (exists v, 0 <= v <= 100 /\ s = round2 v) ->
  exists v n, 0 <= v <= 100 /\ s = round2 v /\
              s = IZR n / 100 /\ (0 <= n <= 10000)%Z /\ 0 <= s <= 100.
Proof.
  intros (v & Hv & ->). exists v, (round_half_even (v * 100)).
  split; [exact Hv|]. split; [reflexivity|]. split; [reflexivity|].
  split; [|now apply round2_bounds].
  rewrite <- (round_half_even_IZR 0), <- (round_half_even_IZR 10000).
  split; apply round_half_even_mono; lra.
Qed.

Lemma risk_score_no_incident (lam : R) :
  round2 (clip (100 * exp (- lam * 0)) 0 100) = 100.
Proof.
  replace (- lam * 0) with 0 by lra. rewrite exp_0.
  replace (clip (100 * 1) 0 100) with 100; [apply round2_100|].
  unfold clip, Rmin, Rmax.
  destruct (Rle_dec (100 * 1) 0); destruct (Rle_dec _ 100); lra.
Qed.

End IndicatorFacts.

Section IndicatorSpec.

Local Open Scope R_scope.

(** C3. On an empty transaction set the indicators return their defaults:
    Activity 0, Longevity 0, Diversity 0, General_Risk 100 (whatever the
    tagged count) and, with no token-transfer incident, Asset_Risk 100. *)
Theorem empty_input_defaults
  (env : Env) (df_tx : TxFrame) (df_erc20 : Erc20Frame) (tagged : Z) :
  tx_empty df_tx = true ->
  calculate_activity_score df_tx = 0 /\
  calculate_longevity_score env df_tx = 0 /\
  calculate_diversity_score df_tx = 0 /\
  calculate_general_risk_score df_tx tagged = 100 /\
  calculate_asset_risk_score df_tx empty_erc20_frame = 100 /\
  (count_isin PRIVACY_TOKEN_CONTRACTS
     (map contractAddress (erc20_rows df_erc20)) = O ->
   calculate_asset_risk_score df_tx df_erc20 = 100).
Proof.
  intros He.
  unfold calculate_activity_score, calculate_longevity_score,
    calculate_diversity_score, calculate_general_risk_score,
    calculate_asset_risk_score.
  rewrite He. cbn [negb andb]. repeat split; try reflexivity.
  - cbn. apply risk_score_no_incident.
  - intros Hc. cbv zeta. rewrite Hc.
    destruct (negb (erc20_empty df_erc20) && erc20_has_contractAddress df_erc20);
      cbn [Nat.add INR]; apply risk_score_no_incident.
Qed.

Lemma empty_input_defaults_witness :
  calculate_activity_score empty_tx_frame = 0 /\
  calculate_longevity_score env_offline empty_tx_frame = 0 /\
  calculate_diversity_score empty_tx_frame = 0 /\
  calculate_general_risk_score empty_tx_frame 0 = 100 /\
  calculate_asset_risk_score empty_tx_frame empty_erc20_frame = 100.
Proof.
  destruct (empty_input_defaults env_offline empty_tx_frame empty_erc20_frame 0)
    as (H1 & H2 & H3 & H4 & H5 & _); [reflexivity|].
  repeat split; assumption.
Defined.

Lemma activity_rounds (df : TxFrame) :
  calculate_activity_score df = round2 (activity_before_rounding df) /\
  0 <= activity_before_rounding df <= 100.
Proof.
  unfold calculate_activity_score, activity_before_rounding.
  destruct (tx_empty df); [rewrite round2_0; split; [reflexivity | lra]|].
  cbv zeta. replace (5000 + 1) with 5001 by lra.
  replace (10000 + 1) with 10001 by lra.
  split; [reflexivity|].
  match goal with
  | |- _ <= (0.5 * clip ?a 0 1 + 0.5 * clip ?b 0 1) * 100 <= _ =>
      pose proof (clip_bounds a 0 1); pose proof (clip_bounds b 0 1)
  end.
  lra.
Qed.

Lemma longevity_rounds (env : Env) (df : TxFrame) :
  calculate_longevity_score env df = round2 (longevity_before_rounding env df) /\
  0 <= longevity_before_rounding env df <= 100.
Proof.
  unfold calculate_longevity_score, longevity_before_rounding, days_since_first_tx.
  destruct (tx_empty df); [rewrite round2_0; split; [reflexivity | lra]|].
  cbv zeta. set (days := Z.max _ 0).
  pose proof ln_731_pos as P.
  destruct (Rlt_dec 0 (ln (730 + 1))) as [_ | N]; [|contradiction].
  replace (730 + 1) with 731 in * by lra.
  rewrite (Rmin_comm 100). split; [reflexivity|].
  assert (0 <= ln (IZR days + 1)).
  { apply ln_nonneg. assert (0 <= days)%Z by apply Z.le_max_r.
    assert (0 <= IZR days) by now apply IZR_le. lra. }
  assert (0 <= ln (IZR days + 1) / ln 731 * 100).
  { apply Rmult_le_pos; [|lra]. apply Rmult_le_pos; [assumption|].
    left. now apply Rinv_0_lt_compat. }
  unfold Rmin. destruct (Rle_dec _ 100); lra.
Qed.

Lemma diversity_rounds (df : TxFrame) :
  calculate_diversity_score df = round2 (diversity_before_rounding df) /\
  0 <= diversity_before_rounding df <= 100.
Proof.
  unfold calculate_diversity_score, diversity_before_rounding,
    unique_recipient_count.
  destruct (tx_empty df); [rewrite round2_0; split; [reflexivity | lra]|].
  cbv zeta. destruct (Rlt_dec 0 25); [|lra].
  split; [reflexivity|].
  match goal with |- context [INR ?n] => pose proof (pos_INR n) end.
  unfold Rmin. destruct (Rle_dec 100 _); lra.
Qed.

Lemma general_risk_rounds (df : TxFrame) (tagged : Z) :
  calculate_general_risk_score df tagged
  = round2 (general_risk_before_rounding df tagged) /\
  0 <= general_risk_before_rounding df tagged <= 100.
Proof.
  unfold calculate_general_risk_score, general_risk_before_rounding,
    general_incidents.
  destruct (tx_empty df); [rewrite round2_100; split; [reflexivity | lra]|].
  cbv zeta. split; [reflexivity | apply clip_bounds; lra].
Qed.

Lemma asset_risk_rounds (df : TxFrame) (df_erc20 : Erc20Frame) :
  calculate_asset_risk_score df df_erc20
  = round2 (asset_risk_before_rounding df df_erc20) /\
  0 <= asset_risk_before_rounding df df_erc20 <= 100.
Proof.
  unfold calculate_asset_risk_score, asset_risk_before_rounding, asset_incidents.
  cbv zeta. split; [reflexivity | apply clip_bounds; lra].
Qed.

Lemma rounds_clipped_value (score pre : R) :
  score = round2 pre /\ 0 <= pre <= 100 ->
  score = round2 pre /\ 0 <= pre <= 100 /\
  (exists n, score = IZR n / 100 /\ (0 <= n <= 10000)%Z) /\
  0 <= score <= 100.
Proof.
  intros [-> H]. split; [reflexivity|]. split; [exact H|]. split.
  - exists (round_half_even (pre * 100)). split; [reflexivity|].
    rewrite <- (round_half_even_IZR 0), <- (round_half_even_IZR 10000).
    split; apply round_half_even_mono; lra.
  - now apply round2_bounds.
Qed.

(** C4. On non-negative input data every indicator is in [[0,100]], and each
    is computed in this order: the raw value of the spec's formula, clipped
    to the valid range (for Activity both normalized terms are clipped to
    [[0,1]] before they are combined), and only then rounded to two
    decimals.  The value handed to the rounding is the clipped one and it
    lies in [[0,100]], so the rounded score is a whole number of hundredths
    between 0 and 100.  The hypotheses name the inputs the claim speaks of;
    the real-number model agrees with the floating-point code on them. *)
Theorem indicators_bounded
  (env : Env) (df_tx : TxFrame) (df_erc20 : Erc20Frame) (tagged : Z) :
  Forall (fun r => 0 <= value_eth r) (tx_rows df_tx) ->
  (0 <= tagged)%Z ->
  let clipped_then_rounded (score clipped : R) :=
    score = round2 clipped /\ 0 <= clipped <= 100 /\
    (exists n, score = IZR n / 100 /\ (0 <= n <= 10000)%Z) /\
    0 <= score <= 100 in
  clipped_then_rounded (calculate_activity_score df_tx)
    (activity_before_rounding df_tx) /\
  clipped_then_rounded (calculate_longevity_score env df_tx)
    (longevity_before_rounding env df_tx) /\
  clipped_then_rounded (calculate_diversity_score df_tx)
    (diversity_before_rounding df_tx) /\
  clipped_then_rounded (calculate_general_risk_score df_tx tagged)
    (general_risk_before_rounding df_tx tagged) /\
  clipped_then_rounded (calculate_asset_risk_score df_tx df_erc20)
    (asset_risk_before_rounding df_tx df_erc20).
Proof.
  intros _ _ clipped_then_rounded. unfold clipped_then_rounded.
  split; [apply rounds_clipped_value, activity_rounds|].
  split; [apply rounds_clipped_value, longevity_rounds|].
  split; [apply rounds_clipped_value, diversity_rounds|].
  split; [apply rounds_clipped_value, general_risk_rounds
         | apply rounds_clipped_value, asset_risk_rounds].
Qed.

End IndicatorSpec.

Section IndicatorExamples.

Local Open Scope R_scope.

Lemma indicators_bounded_witness :
  0 <= calculate_activity_score (one_year_frame env_offline) <= 100 /\
  0 <= calculate_longevity_score env_offline (one_year_frame env_offline) <= 100 /\
  0 <= calculate_diversity_score (one_year_frame env_offline) <= 100 /\
  0 <= calculate_general_risk_score (one_year_frame env_offline) 3 <= 100 /\
  0 <= calculate_asset_risk_score (one_year_frame env_offline) empty_erc20_frame
    <= 100.
Proof.
  assert (V : Forall (fun r => 0 <= value_eth r)
                (tx_rows (one_year_frame env_offline))).
  { repeat constructor. simpl. lra. }
  destruct (indicators_bounded env_offline (one_year_frame env_offline)
              empty_erc20_frame 3 V ltac:(lia))
    as ((_ & _ & _ & H1) & (_ & _ & _ & H2) & (_ & _ & _ & H3)
        & (_ & _ & _ & H4) & (_ & _ & _ & H5)).
  repeat split; tauto.
Defined.

Lemma longevity_of_days (env : Env) (df : TxFrame) (r : TxRow) (d : Z) :
  tx_rows df = [r] ->
  Z.max ((now env - datetime r) / 86400) 0 = d ->
  ln (IZR d + 1) / ln 731 * 100 <= 100 ->
  calculate_longevity_score env df = round2 (ln (IZR d + 1) / ln 731 * 100).
Proof.
  intros Hr Hd Hle. unfold calculate_longevity_score, tx_empty.
  rewrite Hr. cbn [map series_min fold_left]. rewrite Hd.
  destruct (Rlt_dec 0 (ln (730 + 1))) as [_ | N];
    [| exfalso; apply N, ln_731_pos].
  replace (730 + 1) with 731 by lra.
  f_equal. unfold Rmin. destruct (Rle_dec _ 100); [reflexivity | contradiction].
Qed.

Lemma longevity_365_days (env : Env) (df : TxFrame) (r : TxRow) :
  tx_rows df = [r] ->
  datetime r = (now env - 365 * 86400)%Z ->
  calculate_longevity_score env df = round2 (ln 366 / ln 731 * 100) /\
  round2 (ln 366 / ln 731 * 100) = 89.51.
Proof.
  intros Hr Ht.
  pose proof ln_366_731 as B. split.
  - replace 366 with (IZR 365 + 1) by lra.
    apply (longevity_of_days env df r 365 Hr).
    + rewrite Ht.
      replace (now env - (now env - 365 * 86400))%Z with (365 * 86400)%Z by lia.
      reflexivity.
    + replace (IZR 365 + 1) with 366 by lra. lra.
  - rewrite (round2_near _ 8951); lra.
Qed.

(** C9, as the code has it.  For a single record stamped exactly 365 days
    before now, Longevity_Score is [round(log(366)/log(731)*100, 2)], and
    that value is 89.51. *)
Theorem longevity_one_year (env : Env) (df : TxFrame) (r : TxRow) :
  tx_rows df = [r] ->
  datetime r = (now env - 365 * 86400)%Z ->
  calculate_longevity_score env df = round2 (ln 366 / ln 731 * 100) /\
  calculate_longevity_score env df = 89.51.
Proof.
  intros Hr Ht. destruct (longevity_365_days env df r Hr Ht) as [E V].
  split; [exact E | now rewrite E].
Qed.

Lemma longevity_one_year_witness :
  calculate_longevity_score env_offline (one_year_frame env_offline)
    = round2 (ln 366 / ln 731 * 100) /\
  calculate_longevity_score env_offline (one_year_frame env_offline) = 89.51.
Proof.
  apply (longevity_one_year env_offline (one_year_frame env_offline) _ eq_refl).
  reflexivity.
Defined.

(** The Longevity_Score of the one-year scenario is 89.51: it is not 88.89,
    and not within half a point of it. *)
Lemma longevity_one_year_not_88_89 :
  calculate_longevity_score env_offline (one_year_frame env_offline) <> 88.89 /\
  calculate_longevity_score env_offline (one_year_frame env_offline) - 88.89 > 0.5.
Proof.
  destruct (longevity_365_days env_offline (one_year_frame env_offline) _
              eq_refl eq_refl) as [E V].
  rewrite E, V. split; lra.
Qed.

End IndicatorExamples.

(** ** The scoring pass never raises *)

Section Totality.

Local Open Scope string_scope.

Lemma table_name_tx (a : string) :
  canonical_address a -> table_name a "tx" = Ok ("tx_" ++ Str.drop 2 a).
Proof.
  intros H. unfold table_name. now rewrite (normalize_address_canonical a H).
Qed.

Lemma table_name_erc20 (a : string) :
  canonical_address a -> table_name a "erc20" = Ok ("erc20_" ++ Str.drop 2 a).
Proof.
  intros H. unfold table_name. now rewrite (normalize_address_canonical a H).
Qed.

Lemma fetch_tx_from_db_total (env : Env) (a : string) :
  canonical_address a -> exists df, fetch_tx_from_db env a = Ok df.
Proof.
  intros H. unfold fetch_tx_from_db. rewrite (table_name_tx a H). simpl.
  eexists. reflexivity.
Qed.

Lemma fetch_erc20_from_db_total (env : Env) (a : string) :
  canonical_address a -> exists df, fetch_erc20_from_db env a = Ok df.
Proof.
  intros H. unfold fetch_erc20_from_db. rewrite (table_name_erc20 a H). simpl.
  eexists. reflexivity.
Qed.

Lemma get_etherscan_address_tag_matched (env : Env) (addr : string) :
  Re.fullmatch ETH_ADDRESS_RE addr = true ->
  get_etherscan_address_tag env addr = Ok (lookup_tag env addr).
Proof.
  intros H. apply fullmatch_canonical in H.
  unfold get_etherscan_address_tag, lookup_tag.
  destruct (ETHERSCAN_API_KEY env); simpl; [|reflexivity].
  now rewrite (normalize_address_canonical addr H).
Qed.

(** The loop keeps exactly the flagged candidates, in order. *)
Lemma scan_tagged_filter (env : Env) (l : list string) :
  scan_tagged env l = Ok (filter (flagged env) l).
Proof.
  induction l as [|addr l IH]; simpl; [reflexivity|].
  unfold flagged at 1.
  destruct (Re.fullmatch ETH_ADDRESS_RE addr) eqn:E; simpl.
  - rewrite (get_etherscan_address_tag_matched env addr E), IH. simpl.
    now destruct (is_scam_label (lookup_tag env addr)).
  - exact IH.
Qed.

Lemma detect_tagged_scam_counterparties_eq (env : Env) (df : TxFrame) (n : nat) :
  detect_tagged_scam_counterparties env df n =
  if tx_empty df || negb (tx_has_to df) || negb (ETHERSCAN_API_KEY env)
  then Ok (O, [])
  else Ok (List.length (filter (flagged env) (candidates df n)),
           firstn 10 (filter (flagged env) (candidates df n))).
Proof.
  unfold detect_tagged_scam_counterparties.
  destruct (tx_empty df || negb (tx_has_to df) || negb (ETHERSCAN_API_KEY env));
    [reflexivity|].
  fold (candidates df n). now rewrite scan_tagged_filter.
Qed.

Lemma calculate_final_score_invalid (env : Env) (address : string) :
  ~ canonical_address (Str.lower (Str.strip address)) ->
  calculate_final_score env address
  = Ok (error_dict address invalid_address_msg).
Proof.
  intros H. unfold calculate_final_score.
  destruct (normalize_address address) as [a|e] eqn:E.
  - apply normalize_address_Ok in E as [-> E]. contradiction.
  - now rewrite (normalize_address_raises address e E).
Qed.

Lemma calculate_final_score_no_data
  (env : Env) (address a : string) (df : TxFrame) :
  normalize_address address = Ok a ->
  fetch_tx_from_db env a = Ok df ->
  tx_empty df = true ->
  calculate_final_score env address = Ok (error_dict a no_tx_data_msg).
Proof.
  intros Ha Hf He. unfold calculate_final_score.
  rewrite Ha, Hf. simpl. now rewrite He.
Qed.

Lemma calculate_final_score_scored
  (env : Env) (address a : string) (df : TxFrame) :
  normalize_address address = Ok a ->
  fetch_tx_from_db env a = Ok df ->
  tx_empty df = false ->
  exists df_erc20 n sample,
    fetch_erc20_from_db env a = Ok df_erc20 /\
    detect_tagged_scam_counterparties env df default_max_to_check
      = Ok (n, sample) /\
    calculate_final_score env address = score_frames env a df df_erc20 n sample.
Proof.
  intros Ha Hf He. unfold calculate_final_score.
  rewrite Ha, Hf. simpl. rewrite He.
  apply normalize_address_Ok in Ha as [_ Hc].
  destruct (fetch_erc20_from_db_total env a Hc) as (df_erc20 & Hg).
  rewrite Hg. simpl.
  rewrite detect_tagged_scam_counterparties_eq.
  destruct (tx_empty df || negb (tx_has_to df) || negb (ETHERSCAN_API_KEY env));
    simpl; eexists _, _, _; repeat split; reflexivity.
Qed.

Lemma score_frames_total (env : Env) (a : string) (df : TxFrame)
  (df_erc20 : Erc20Frame) (n : nat) (sample : list string) :
  exists d, score_frames env a df df_erc20 n sample = Ok d /\ status d = "OK".
Proof.
  unfold score_frames.
  match goal with
  | |- context [indicators_dict ?A ?L ?D ?G ?K] =>
      destruct (aggregate_dict env a A L D G K n sample) as (d & E & S & _)
  end.
  now exists d.
Qed.

Lemma calculate_final_score_total (env : Env) (address : string) :
  exists d, calculate_final_score env address = Ok d.
Proof.
  destruct (normalize_address address) as [a|e] eqn:E.
  - pose proof E as Hc. apply normalize_address_Ok in Hc as [_ Hc].
    destruct (fetch_tx_from_db_total env a Hc) as (df & Hf).
    destruct (tx_empty df) eqn:He.
    + eexists. now apply (calculate_final_score_no_data env address a df).
    + destruct (calculate_final_score_scored env address a df E Hf He)
        as (df_erc20 & n & sample & _ & _ & ->).
      destruct (score_frames_total env a df df_erc20 n sample) as (d & Hd & _).
      now exists d.
  - unfold calculate_final_score. rewrite E.
    rewrite (normalize_address_raises address e E). eexists. reflexivity.
Qed.

End Totality.

Section ScoringSpec.

Local Open Scope string_scope.

Lemma fetch_tx_empty_iff (env : Env) (a : string) :
  canonical_address a ->
  exists df, fetch_tx_from_db env a = Ok df /\
             tx_empty df = store_has_no_tx env a.
Proof.
  intros H. unfold fetch_tx_from_db, store_has_no_tx.
  rewrite (table_name_tx a H). simpl.
  eexists. split; [reflexivity|].
  destruct (db_tx env _) as [t|]; [|reflexivity].
  destruct (txt_rows t) as [|r rows]; [reflexivity|].
  now destruct (txt_empty_flag t).
Qed.

(** C5, as the code has it.  When the store yields no transaction data for a
    valid address, scoring returns (it does not raise) the error dict: the
    could-not-load status, the placeholder final_score 0, an empty indicators
    mapping and no profile, weights or diagnostics.  The token-transfer table
    is not consulted, so this holds whatever token transfers exist; and a
    result with status OK is only returned when the store has transaction
    rows. *)
Theorem no_transaction_data_is_terminal (env : Env) (address a : string) :
  normalize_address address = Ok a ->
  (store_has_no_tx env a = true ->
   calculate_final_score env address
   = Ok {| address := a;
           status := "Error: Could not load tx data. Check ingestion step.";
           final_score := Some 0%R;
           profile := None;
           indicators := [];
           weights := None;
           diagnostics := None |}) /\
  (forall d, calculate_final_score env address = Ok d -> status d = "OK" ->
             store_has_no_tx env a = false).
Proof.
  intros Ha.
  pose proof Ha as Hc. apply normalize_address_Ok in Hc as [_ Hc].
  destruct (fetch_tx_empty_iff env a Hc) as (df & Hf & He).
  split.
  - intros Hs. rewrite Hs in He.
    now rewrite (calculate_final_score_no_data env address a df Ha Hf He).
  - intros d Hd Hs. destruct (store_has_no_tx env a); [|reflexivity].
    rewrite (calculate_final_score_no_data env address a df Ha Hf He) in Hd.
    injection Hd as <-. discriminate Hs.
Qed.

Lemma no_transaction_data_is_terminal_witness :
  calculate_final_score env_tokens_only sample_address
  = Ok {| address := sample_address;
          status := "Error: Could not load tx data. Check ingestion step.";
          final_score := Some 0%R;
          profile := None;
          indicators := [];
          weights := None;
          diagnostics := None |}.
Proof.
  apply (proj1 (no_transaction_data_is_terminal env_tokens_only
                  sample_address sample_address eq_refl)).
  reflexivity.
Defined.

(** With no transaction data the returned dict does carry a number under
    final_score: the placeholder 0. *)
Lemma no_data_result_carries_final_score_0 :
  exists d,
    calculate_final_score env_tokens_only sample_address = Ok d /\
    status d = "Error: Could not load tx data. Check ingestion step." /\
    final_score d = Some 0%R /\
    final_score d <> None.
Proof.
  eexists. split.
  - apply (calculate_final_score_no_data env_tokens_only sample_address
             sample_address empty_tx_frame); reflexivity.
  - simpl. repeat split. discriminate.
Qed.

(** C10. The scoring function is total over strings: for every environment
    and every input string it returns a dict (with its status) and never
    raises; on a malformed address the dict carries the input, the
    invalid-address message as status, final_score 0 and an empty indicators
    mapping. *)
Theorem calculate_final_score_never_raises (env : Env) (address : string) :
  (exists d, calculate_final_score env address = Ok d) /\
  (~ canonical_address (Str.lower (Str.strip address)) ->
   calculate_final_score env address
   = Ok {| address := address;
           status := "Invalid Ethereum address format";
           final_score := Some 0%R;
           profile := None;
           indicators := [];
           weights := None;
           diagnostics := None |}).
Proof.
  split.
  - apply calculate_final_score_total.
  - apply calculate_final_score_invalid.
Qed.

Lemma calculate_final_score_never_raises_witness :
  calculate_final_score env_offline "0xNOTANADDRESS"
  = Ok {| address := "0xNOTANADDRESS";
          status := "Invalid Ethereum address format";
          final_score := Some 0%R;
          profile := None;
          indicators := [];
          weights := None;
          diagnostics := None |}.
Proof.
  apply (proj2 (calculate_final_score_never_raises env_offline "0xNOTANADDRESS")).
  intros (h & E & L & _). simpl in E. injection E as <-. discriminate L.
Defined.

End ScoringSpec.

(** ** Stable descending insertion sort *)

Section SortForall.

Lemma Forall_insert_desc (P : string * nat -> Prop) (p : string * nat)
  (l : list (string * nat)) :
  Forall P (insert_desc p l) <-> P p /\ Forall P l.
Proof.
  induction l as [|q l IH]; simpl.
  - split; [intros H; inversion H; auto | intros [H _]; auto].
  - destruct (snd p <? snd q)%nat.
    + rewrite !Forall_cons_iff, IH. tauto.
    + rewrite !Forall_cons_iff. tauto.
Qed.

Lemma Forall_sort_desc (P : string * nat -> Prop) (l : list (string * nat)) :
  Forall P (sort_desc l) <-> Forall P l.
Proof.
  induction l as [|p l IH]; simpl; [tauto|].
  rewrite Forall_insert_desc, Forall_cons_iff, IH. tauto.
Qed.

End SortForall.

Section StableSort.

Variable before : string * nat -> string * nat -> Prop.

Lemma insert_desc_sorted (p : string * nat) (l : list (string * nat)) :
  StronglySorted (sorted_rel before) l -> Forall (before p) l ->
  StronglySorted (sorted_rel before) (insert_desc p l).
Proof.
  induction l as [|q l IH]; simpl; intros Hs Hb.
  - repeat constructor.
  - apply StronglySorted_inv in Hs as [Hs Hq].
    apply Forall_cons_iff in Hb as [Hpq Hb].
    destruct (Nat.ltb_spec (snd p) (snd q)) as [Hlt | Hge].
    + constructor; [now apply IH|].
      apply Forall_insert_desc. split; [now left | exact Hq].
    + constructor; [now constructor|].
      constructor.
      * unfold sorted_rel. destruct (Nat.eq_dec (snd p) (snd q)); [right | left];
          [tauto | lia].
      * rewrite Forall_forall in *. intros r Hr.
        specialize (Hq r Hr). specialize (Hb r Hr).
        unfold sorted_rel in *.
        destruct (Nat.eq_dec (snd p) (snd r)); [right; tauto | left; lia].
Qed.

Lemma sort_desc_sorted (l : list (string * nat)) :
  StronglySorted before l -> StronglySorted (sorted_rel before) (sort_desc l).
Proof.
  induction l as [|p l IH]; simpl; intros H; [constructor|].
  apply StronglySorted_inv in H as [Hs Hp].
  apply insert_desc_sorted; [now apply IH | now apply Forall_sort_desc].
Qed.

End StableSort.

Section SortPermutation.

Lemma insert_desc_perm (p : string * nat) (l : list (string * nat)) :
  Permutation (insert_desc p l) (p :: l).
Proof.
  induction l as [|q l IH]; simpl; [reflexivity|].
  destruct (snd p <? snd q)%nat; [|reflexivity].
  rewrite IH. apply perm_swap.
Qed.

Lemma sort_desc_perm (l : list (string * nat)) : Permutation (sort_desc l) l.
Proof.
  induction l as [|p l IH]; simpl; [reflexivity|].
  rewrite insert_desc_perm. now constructor.
Qed.

End SortPermutation.

(** ** Ranking of the recipients *)

Section SortedLists.

Context {A B : Type}.

Lemma StronglySorted_weaken (R R' : A -> A -> Prop) (l : list A) :
  (forall a b, In a l -> In b l -> R a b -> R' a b) ->
  StronglySorted R l -> StronglySorted R' l.
Proof.
  induction l as [|x l IH]; intros H Hs; [constructor|].
  apply StronglySorted_inv in Hs as [Hs Hx]. constructor.
  - apply IH; [|exact Hs]. intros a b Ha Hb. apply H; now right.
  - rewrite Forall_forall in *. intros y Hy.
    apply H; [now left | now right | now apply Hx].
Qed.

Lemma StronglySorted_filter (R : A -> A -> Prop) (f : A -> bool) (l : list A) :
  StronglySorted R l -> StronglySorted R (filter f l).
Proof.
  induction l as [|x l IH]; simpl; intros Hs; [constructor|].
  apply StronglySorted_inv in Hs as [Hs Hx].
  destruct (f x); [|now apply IH].
  constructor; [now apply IH|].
  rewrite Forall_forall in *. intros y Hy. apply filter_In in Hy as [Hy _].
  now apply Hx.
Qed.

Lemma In_firstn (x : A) (n : nat) (l : list A) : In x (firstn n l) -> In x l.
Proof.
  rewrite <- (firstn_skipn n l) at 2. intros H. apply in_or_app. now left.
Qed.

Lemma StronglySorted_firstn (R : A -> A -> Prop) (n : nat) (l : list A) :
  StronglySorted R l -> StronglySorted R (firstn n l).
Proof.
  revert l. induction n as [|n IH]; intros l Hs; [constructor|].
  destruct l as [|x l]; [constructor|]. simpl.
  apply StronglySorted_inv in Hs as [Hs Hx].
  constructor; [now apply IH|].
  rewrite Forall_forall in *. intros y Hy. apply Hx.
  now apply (In_firstn y n l).
Qed.

Lemma StronglySorted_map (R : B -> B -> Prop) (f : A -> B) (l : list A) :
  StronglySorted R (map f l) <-> StronglySorted (fun a b => R (f a) (f b)) l.
Proof.
  induction l as [|x l IH]; simpl.
  - split; constructor.
  - split; intros Hs; apply StronglySorted_inv in Hs as [Hs Hx];
      constructor; try (now apply IH).
    + now rewrite Forall_map in Hx.
    + now rewrite Forall_map.
Qed.

End SortedLists.

Section Ranking.

Local Open Scope string_scope.

Lemma In_unique (x : string) (l : list string) : In x (unique l) <-> In x l.
Proof.
  induction l as [|y l IH]; simpl; [tauto|].
  rewrite filter_In, IH, negb_true_iff, String.eqb_neq.
  destruct (string_dec y x); [subst|]; intuition congruence.
Qed.

Lemma NoDup_unique (l : list string) : NoDup (unique l).
Proof.
  induction l as [|y l IH]; simpl; constructor.
  - rewrite filter_In, negb_true_iff, String.eqb_neq. tauto.
  - now apply NoDup_filter.
Qed.

(** [unique] lists the values in the order they are first seen. *)
Lemma unique_first_seen (l : list string) :
  StronglySorted (fun a b => (first_index a l < first_index b l)%nat) (unique l).
Proof.
  induction l as [|y l IH]; simpl; constructor.
  - apply (StronglySorted_weaken
             (fun a b => (first_index a l < first_index b l)%nat));
      [|now apply StronglySorted_filter].
    intros a b Ha Hb H.
    apply filter_In in Ha as [_ Ha]. apply filter_In in Hb as [_ Hb].
    apply negb_true_iff in Ha, Hb.
    rewrite String.eqb_sym in Ha. rewrite String.eqb_sym in Hb.
    rewrite Ha, Hb. lia.
  - rewrite Forall_forall. intros z Hz.
    apply filter_In in Hz as [_ Hz]. apply negb_true_iff in Hz.
    rewrite String.eqb_refl. rewrite String.eqb_sym in Hz. rewrite Hz. lia.
Qed.

Lemma value_counts_counts (l : list string) :
  Forall (fun p => snd p = count (fst p) l) (value_counts l).
Proof.
  unfold value_counts. apply Forall_sort_desc.
  rewrite Forall_map. apply Forall_forall. reflexivity.
Qed.

Lemma value_counts_perm (l : list string) :
  Permutation (map fst (value_counts l)) (unique l).
Proof.
  unfold value_counts. rewrite sort_desc_perm, map_map. simpl.
  now rewrite map_id.
Qed.

(** The distinct values come out by count descending, ties in first-seen
    order. *)
Lemma value_counts_ranked (l : list string) :
  StronglySorted (ranks_before l) (map fst (value_counts l)).
Proof.
  apply StronglySorted_map.
  set (before := fun p q : string * nat =>
                   (first_index (fst p) l < first_index (fst q) l)%nat).
  apply (StronglySorted_weaken (sorted_rel before)).
  - pose proof (value_counts_counts l) as Hc. rewrite Forall_forall in Hc.
    intros p q Hp Hq. unfold sorted_rel, ranks_before, before.
    rewrite <- (Hc p Hp), <- (Hc q Hq). tauto.
  - unfold value_counts. apply sort_desc_sorted.
    apply StronglySorted_map. simpl. apply unique_first_seen.
Qed.

Lemma candidates_ranked (df : TxFrame) (n : nat) :
  let col := map Str.lower (map to_ (tx_rows df)) in
  (List.length (candidates df n) <= n)%nat /\
  StronglySorted (ranks_before col) (candidates df n) /\
  NoDup (candidates df n) /\
  (forall a, In a (candidates df n) -> In a col) /\
  ((List.length (unique col) <= n)%nat ->
   Permutation (candidates df n) (unique col)).
Proof.
  intros col. unfold candidates. fold col.
  pose proof (value_counts_perm col) as Hp.
  assert (Hn : NoDup (map fst (value_counts col))).
  { apply (Permutation_NoDup (l := unique col));
      [now symmetry | apply NoDup_unique]. }
  split; [apply firstn_le_length|].
  split; [apply StronglySorted_firstn, value_counts_ranked|].
  split; [|split].
  - rewrite <- (firstn_skipn n) in Hn. now apply NoDup_app_remove_r in Hn.
  - intros a Ha. apply In_firstn in Ha.
    apply In_unique. now apply (Permutation_in _ Hp).
  - intros Hl. rewrite firstn_all2; [exact Hp|].
    now rewrite (Permutation_length Hp).
Qed.

End Ranking.

Section ScanSpec.

Local Open Scope string_scope.

Lemma filter_length_le {A : Type} (f : A -> bool) (l : list A) :
  (List.length (filter f l) <= List.length l)%nat.
Proof.
  induction l as [|x l IH]; simpl; [lia|]. destruct (f x); simpl; lia.
Qed.

Lemma is_scam_label_no_info : is_scam_label None = false.
Proof. reflexivity. Qed.

(** C8. For every transaction set the counterparty risk scan returns, without
    raising, the number of flagged candidates and a sample of at most 10 of
    them.  The candidates are the first 40 entries of the ranking of the
    distinct recipients by occurrence count descending, ties in first-seen
    order; a candidate is flagged when it is a well-formed address whose
    label info is classified as scam; a candidate whose lookup fails is not
    flagged, and the scan goes on over the remaining candidates. *)
Theorem counterparty_scan_spec (env : Env) (df_tx : TxFrame) :
  let col := map Str.lower (map to_ (tx_rows df_tx)) in
  exists ranking cands tagged,
    detect_tagged_scam_counterparties env df_tx 40
      = Ok (List.length tagged, firstn 10 tagged) /\
    Permutation ranking (unique col) /\
    StronglySorted (ranks_before col) ranking /\
    cands = firstn 40 ranking /\
    (List.length cands <= 40)%nat /\
    tagged =
      (if tx_empty df_tx || negb (tx_has_to df_tx)
          || negb (ETHERSCAN_API_KEY env)
       then []
       else filter (fun a => Re.fullmatch ETH_ADDRESS_RE a
                             && is_scam_label (lookup_tag env a)) cands) /\
    (forall a, In a tagged -> In a cands) /\
    (forall a, etherscan_tag env a = None -> ~ In a tagged) /\
    (List.length tagged <= 40)%nat /\
    (List.length (firstn 10 tagged) <= 10)%nat.
Proof.
  intros col.
  set (ranking := map fst (value_counts col)).
  set (cands := firstn 40 ranking).
  set (g := tx_empty df_tx || negb (tx_has_to df_tx) || negb (ETHERSCAN_API_KEY env)).
  set (tagged := if g then [] else filter (flagged env) cands).
  assert (Hc : (List.length cands <= 40)%nat) by apply firstn_le_length.
  assert (Hin : forall a, In a tagged -> In a cands /\ flagged env a = true).
  { intros a. unfold tagged. destruct g; [intros []|]. apply filter_In. }
  exists ranking, cands, tagged.
  split; [|split; [|split; [|split; [|split; [|split; [|split; [|split; [|split]]]]]]]].
  - rewrite detect_tagged_scam_counterparties_eq. fold g. unfold tagged.
    now destruct g.
  - apply value_counts_perm.
  - apply value_counts_ranked.
  - reflexivity.
  - exact Hc.
  - reflexivity.
  - intros a Ha. now apply Hin.
  - intros a Hn Ha. apply Hin in Ha as [_ Ha].
    unfold flagged, lookup_tag in Ha. rewrite Hn in Ha.
    destruct (ETHERSCAN_API_KEY env); simpl in Ha;
      rewrite andb_false_r in Ha; discriminate.
  - unfold tagged. destruct g; simpl; [lia|].
    pose proof (filter_length_le (flagged env) cands). lia.
  - apply firstn_le_length.
Qed.

(** The ranking scenario of the spec: frequencies 10, 8, 8, 1. *)
Example value_counts_ranking_scenario :
  value_counts ranking_column = [("a", 10); ("b", 8); ("c", 8); ("d", 1)]%nat.
Proof. vm_compute. reflexivity. Qed.

End ScanSpec.

(** ** A scored wallet whose returned score and profile disagree *)

Section BusyWallet.

Local Open Scope R_scope.

Lemma ln_909_5001 : 0.7997 < ln 909 / ln 5001 < 0.7999.
Proof.
  pose proof (ln_ratio_bounds 909 5001 535 669 871 1089) as H.
  assert (B : INR 535 / INR 669 < ln 909 / ln 5001 < INR 871 / INR 1089).
  { apply H; try lia; vm_compute; reflexivity. }
  rewrite !INR_IZR_INZ in B.
  change (Z.of_nat 535) with 535%Z in B. change (Z.of_nat 669) with 669%Z in B.
  change (Z.of_nat 871) with 871%Z in B. change (Z.of_nat 1089) with 1089%Z in B.
  lra.
Qed.

Lemma log10_ratio (x y : R) : 1 < y -> log10 x / log10 y = ln x / ln y.
Proof.
  intros Hy. unfold log10.
  assert (0 < ln 10) by (apply ln_pos; lra).
  assert (0 < ln y) by now apply ln_pos.
  field. split; lra.
Qed.

Lemma clip_inside (x lo hi : R) : lo <= x <= hi -> clip x lo hi = x.
Proof.
  intros H. unfold clip, Rmin, Rmax.
  destruct (Rle_dec x lo); destruct (Rle_dec _ hi); lra.
Qed.

Lemma sum_R_zero_values (raws : list RawTx) :
  Forall (fun r => raw_value r = 0%Z) raws ->
  sum_R (map value_eth (map load_tx_row raws)) = 0.
Proof.
  induction 1 as [|r raws Hr _ IH]; simpl; [reflexivity|].
  rewrite IH, Hr. lra.
Qed.

Lemma busy_rows_zero_value : Forall (fun r => raw_value r = 0%Z) busy_rows.
Proof.
  apply Forall_forall. intros r Hr. unfold busy_rows in Hr.
  apply in_map_iff in Hr as (i & <- & _). reflexivity.
Qed.

Lemma busy_frame_not_empty : tx_empty busy_frame = false.
Proof. reflexivity. Qed.

Lemma busy_frame_length : List.length (tx_rows busy_frame) = 908%nat.
Proof.
  unfold busy_frame, busy_rows. cbn [tx_rows].
  now rewrite !length_map, length_seq.
Qed.

Lemma busy_frame_datetime :
  map datetime (tx_rows busy_frame) = map raw_timeStamp busy_rows.
Proof.
  unfold busy_frame. cbn [tx_rows]. rewrite map_map. reflexivity.
Qed.

Lemma busy_frame_to :
  map to_ (tx_rows busy_frame) = map (fun r => Str.lower (raw_to r)) busy_rows.
Proof.
  unfold busy_frame. cbn [tx_rows]. rewrite map_map. reflexivity.
Qed.

Lemma busy_activity : calculate_activity_score busy_frame = 39.99.
Proof.
  unfold calculate_activity_score.
  rewrite busy_frame_not_empty, busy_frame_length. cbv zeta.
  unfold busy_frame at 1. cbn [tx_rows].
  rewrite (sum_R_zero_values _ busy_rows_zero_value).
  rewrite INR_IZR_INZ. change (Z.of_nat 908) with 908%Z.
  replace (908 + 1) with 909 by lra.
  replace (5000 + 1) with 5001 by lra.
  replace (0 + 1) with 1 by lra.
  rewrite (log10_ratio 909 5001) by lra.
  pose proof ln_909_5001 as B.
  assert (Z0 : log10 1 / log10 (10000 + 1) = 0).
  { unfold log10. rewrite ln_1. unfold Rdiv. now rewrite !Rmult_0_l. }
  rewrite Z0, (clip_inside 0 0 1), (clip_inside _ 0 1) by lra.
  rewrite (round2_near _ 3999); lra.
Qed.

Lemma busy_longevity : calculate_longevity_score env_busy busy_frame = 100.
Proof.
  unfold calculate_longevity_score.
  rewrite busy_frame_not_empty, busy_frame_datetime. cbv zeta.
  replace (Z.max ((now env_busy - series_min (map raw_timeStamp busy_rows)) / 86400) 0)
    with 1157%Z by (vm_compute; reflexivity).
  destruct (Rlt_dec 0 (ln (730 + 1))) as [P | N];
    [| exfalso; apply N, ln_731_pos].
  replace (1157 + 1) with 1158 by lra.
  assert (ln (730 + 1) < ln 1158) by (apply ln_increasing; lra).
  assert (1 < ln 1158 / ln (730 + 1)).
  { apply Rmult_lt_reg_r with (ln (730 + 1)); [exact P|].
    unfold Rdiv. rewrite Rmult_assoc, Rinv_l; lra. }
  unfold Rmin. destruct (Rle_dec _ 100); [lra | apply round2_100].
Qed.

Lemma busy_diversity : calculate_diversity_score busy_frame = 100.
Proof.
  unfold calculate_diversity_score.
  rewrite busy_frame_not_empty. cbv zeta. cbn [tx_has_to busy_frame].
  fold busy_frame. rewrite busy_frame_to.
  replace (List.length (unique (map (fun r => Str.lower (raw_to r)) busy_rows)))
    with 25%nat by (vm_compute; reflexivity).
  destruct (Rlt_dec 0 25); [|lra].
  rewrite INR_IZR_INZ. change (Z.of_nat 25) with 25%Z.
  replace (25 / 25 * 100) with 100 by lra.
  unfold Rmin. destruct (Rle_dec 100 100); apply round2_100.
Qed.

Lemma busy_general_risk : calculate_general_risk_score busy_frame 0 = 100.
Proof.
  unfold calculate_general_risk_score.
  rewrite busy_frame_not_empty. cbv zeta. cbn [tx_has_to busy_frame].
  fold busy_frame. rewrite busy_frame_to.
  replace (count_isin KNOWN_SCAM_ADDRESSES
             (map (fun r => Str.lower (raw_to r)) busy_rows))
    with O by (vm_compute; reflexivity).
  cbn [Z.of_nat Z.add]. apply risk_score_no_incident.
Qed.

Lemma busy_asset_risk :
  calculate_asset_risk_score busy_frame empty_erc20_frame = 100.
Proof.
  unfold calculate_asset_risk_score.
  rewrite busy_frame_not_empty. cbv zeta.
  cbn [tx_has_to busy_frame negb andb erc20_empty empty_erc20_frame erc20_rows].
  fold busy_frame. rewrite busy_frame_to.
  replace (count_isin MIXER_OR_PRIVACY_TOOLING
             (map (fun r => Str.lower (raw_to r)) busy_rows))
    with O by (vm_compute; reflexivity).
  cbn [Nat.add INR]. apply risk_score_no_incident.
Qed.

End BusyWallet.

Section BusyWalletScore.

Local Open Scope R_scope.

Lemma busy_fetch_tx :
  fetch_tx_from_db env_busy sample_address = Ok busy_frame.
Proof. reflexivity. Qed.

Lemma busy_score_frames :
  calculate_final_score env_busy sample_address
  = aggregate env_busy sample_address
      (indicators_dict 39.99 100 100 100 100) 0 [].
Proof.
  destruct (calculate_final_score_scored env_busy sample_address sample_address
              busy_frame eq_refl busy_fetch_tx busy_frame_not_empty)
    as (df_erc20 & n & sample & He & Hd & ->).
  assert (E1 : df_erc20 = empty_erc20_frame).
  { assert (H : fetch_erc20_from_db env_busy sample_address = Ok empty_erc20_frame)
      by reflexivity.
    congruence. }
  assert (E2 : (n, sample) = (O, [])).
  { rewrite detect_tagged_scam_counterparties_eq in Hd.
    cbn [env_busy ETHERSCAN_API_KEY negb] in Hd.
    rewrite !orb_true_r in Hd. congruence. }
  injection E2 as -> ->. subst df_erc20.
  unfold score_frames. cbn [Z.of_nat].
  now rewrite busy_activity, busy_longevity, busy_diversity,
    busy_general_risk, busy_asset_risk.
Qed.

(** Scoring the wallet of [env_busy] returns status OK, final_score 85.00 and
    the profile Stable User: its weighted score is 84.9975. *)
Lemma scored_wallet_returned_85_is_stable_user :
  exists d,
    calculate_final_score env_busy sample_address = Ok d /\
    status d = "OK"%string /\
    indicators d = indicators_dict 39.99 100 100 100 100 /\
    final_score d = Some 85 /\
    profile d = Some "Stable User - Medium Reputation"%string /\
    profile d <> Some "Power User - High Reputation"%string.
Proof.
  rewrite busy_score_frames.
  destruct (aggregate_dict env_busy sample_address 39.99 100 100 100 100 O [])
    as (d & E & S & F & P & I).
  exists d. split; [exact E|]. split; [exact S|]. split; [exact I|].
  assert (V : (39.99 * 25 + 100 * 20 + 100 * 25 + 100 * 25 + 100 * 5) / 100
              = 84.9975) by lra.
  rewrite V in F, P.
  assert (P' : profile d = Some "Stable User - Medium Reputation"%string).
  { rewrite P. f_equal. apply classify_profile_cases. lra. }
  split; [|split; [exact P' | rewrite P'; discriminate]].
  rewrite F, (round2_near 84.9975 8500); [f_equal|]; lra.
Qed.

End BusyWalletScore.

(** ** Shape of a successful result *)

Section ScoreResult.

Local Open Scope R_scope.

Lemma indicator_in_range (s : R) :
  (exists v, 0 <= v <= 100 /\ s = round2 v) -> 0 <= s <= 100.
Proof. intros (v & Hv & ->). now apply round2_bounds. Qed.

(** Every result with status OK carries five indicators in [[0,100]], the
    two-decimal rounding of their weighted mean as final_score, and the
    profile of the unrounded mean. *)
Lemma calculate_final_score_ok (env : Env) (address : string) (d : ScoreDict) :
  calculate_final_score env address = Ok d ->
  status d = "OK"%string ->
  exists A L D G K,
    indicators d = indicators_dict A L D G K /\
    0 <= A <= 100 /\ 0 <= L <= 100 /\ 0 <= D <= 100 /\
    0 <= G <= 100 /\ 0 <= K <= 100 /\
    final_score d
      = Some (round2 ((A * 25 + L * 20 + D * 25 + G * 25 + K * 5) / 100)) /\
    0 <= round2 ((A * 25 + L * 20 + D * 25 + G * 25 + K * 5) / 100) <= 100 /\
    profile d
      = Some (classify_profile ((A * 25 + L * 20 + D * 25 + G * 25 + K * 5) / 100)).
Proof.
  intros Hd Hs.
  destruct (normalize_address address) as [a|e] eqn:E.
  - pose proof E as Hc. apply normalize_address_Ok in Hc as [_ Hc].
    destruct (fetch_tx_from_db_total env a Hc) as (df & Hf).
    destruct (tx_empty df) eqn:He.
    + rewrite (calculate_final_score_no_data env address a df E Hf He) in Hd.
      injection Hd as <-. discriminate Hs.
    + destruct (calculate_final_score_scored env address a df E Hf He)
        as (df_erc20 & n & sample & _ & _ & Hc').
      rewrite Hc' in Hd. unfold score_frames in Hd.
      set (A := calculate_activity_score df) in *.
      set (L := calculate_longevity_score env df) in *.
      set (D := calculate_diversity_score df) in *.
      set (G := calculate_general_risk_score df (Z.of_nat n)) in *.
      set (K := calculate_asset_risk_score df df_erc20) in *.
      destruct (aggregate_dict env a A L D G K n sample)
        as (d' & E' & _ & F & P & I).
      rewrite E' in Hd. injection Hd as <-.
      assert (HA : 0 <= A <= 100) by apply indicator_in_range, activity_clipped.
      assert (HL : 0 <= L <= 100) by apply indicator_in_range, longevity_clipped.
      assert (HD : 0 <= D <= 100) by apply indicator_in_range, diversity_clipped.
      assert (HG : 0 <= G <= 100) by apply indicator_in_range, general_risk_clipped.
      assert (HK : 0 <= K <= 100) by apply indicator_in_range, asset_risk_clipped.
      exists A, L, D, G, K. repeat split; try tauto.
      * apply round2_bounds. lra.
      * apply round2_bounds. lra.
  - unfold calculate_final_score in Hd. rewrite E in Hd.
    rewrite (normalize_address_raises address e E) in Hd.
    injection Hd as <-. discriminate Hs.
Qed.

End ScoreResult.

(** * Further properties of the code *)

(** ** Table names *)

Section TableNames.

Local Open Scope string_scope.

Lemma all_chars_impl (p q : ascii -> bool) (s : string) :
  (forall c, p c = true -> q c = true) ->
  Str.all_chars p s = true -> Str.all_chars q s = true.
Proof.
  intros H. induction s as [|c s IH]; simpl; [reflexivity|].
  intros Hs. apply andb_true_iff in Hs as [Hc Hs].
  now rewrite (H c Hc), IH.
Qed.

Lemma hex_digit_ident (c : ascii) : is_hex_digit c = true -> is_ident_char c = true.
Proof.
  destruct c as [[] [] [] [] [] [] [] []]; vm_compute; intros H;
    first [reflexivity | discriminate H].
Qed.

Lemma table_name_Ok (address kind t : string) :
  table_name address kind = Ok t <->
  exists h, normalize_address address = Ok ("0x" ++ h) /\
            String.length h = 40%nat /\
            Str.all_chars is_hex_digit h = true /\
            (kind = "tx" \/ kind = "erc20") /\
            t = kind ++ "_" ++ h.
Proof.
  unfold table_name. split.
  - destruct (normalize_address address) as [a|e] eqn:E; simpl; [|discriminate].
    pose proof E as Hc. apply normalize_address_Ok in Hc as [_ (h & -> & Hl & Hh)].
    destruct ((kind =? "tx") || (kind =? "erc20")) eqn:K; simpl; [|discriminate].
    intros [= <-]. exists h. repeat split; auto.
    apply orb_true_iff in K as [K | K]; apply String.eqb_eq in K; auto.
  - intros (h & -> & _ & _ & K & ->). simpl.
    destruct K as [-> | ->]; reflexivity.
Qed.

Lemma normalize_address_not_canonical (x : string) :
  ~ canonical_address (Str.lower (Str.strip x)) ->
  normalize_address x = Raise (ValueError invalid_address_msg).
Proof.
  intros H. destruct (normalize_address x) as [a|e] eqn:E.
  - apply normalize_address_Ok in E as [-> E]. contradiction.
  - now rewrite (normalize_address_raises x e E).
Qed.

(** X1. A table name that [table_name] returns is the kind, an underscore and
    the 40 hexadecimal digits of the normalized address: 43 or 46 characters,
    each a lowercase letter, a digit or an underscore. *)
Theorem table_name_safe_identifier (address kind t : string) :
  table_name address kind = Ok t ->
  exists h,
    normalize_address address = Ok ("0x" ++ h) /\
    String.length h = 40%nat /\
    (kind = "tx" \/ kind = "erc20") /\
    t = kind ++ "_" ++ h /\
    String.length t = (String.length kind + 41)%nat /\
    Str.all_chars is_ident_char t = true.
Proof.
  intros H. apply table_name_Ok in H as (h & Hn & Hl & Hh & K & ->).
  exists h. repeat split; auto.
  - rewrite length_append. simpl. lia.
  - apply (all_chars_impl _ _ _ hex_digit_ident) in Hh.
    rewrite !all_chars_append. rewrite Hh.
    destruct K as [-> | ->]; reflexivity.
Qed.

Lemma table_name_safe_identifier_witness :
  exists h,
    normalize_address " 0xDADB0d80178819F2319190D340ce9A924f783711" = Ok ("0x" ++ h) /\
    String.length h = 40%nat /\
    ("erc20" = "tx" \/ "erc20" = "erc20") /\
    "erc20_dadb0d80178819f2319190d340ce9a924f783711" = "erc20" ++ "_" ++ h /\
    String.length "erc20_dadb0d80178819f2319190d340ce9a924f783711"
      = (String.length "erc20" + 41)%nat /\
    Str.all_chars is_ident_char "erc20_dadb0d80178819f2319190d340ce9a924f783711"
      = true.
Proof.
  apply (table_name_safe_identifier
           " 0xDADB0d80178819F2319190D340ce9A924f783711" "erc20").
  reflexivity.
Defined.

(** X2. [table_name] checks the address before the kind: a malformed address
    raises the invalid-address error whatever the kind, and a well-formed one
    with a kind other than [tx] and [erc20] raises the table-kind error. *)
Theorem table_name_errors (address kind : string) :
  (~ canonical_address (Str.lower (Str.strip address)) ->
   table_name address kind
   = Raise (ValueError "Invalid Ethereum address format")) /\
  (canonical_address (Str.lower (Str.strip address)) ->
   kind <> "tx" -> kind <> "erc20" ->
   table_name address kind
   = Raise (ValueError "table_kind must be 'tx' or 'erc20'")).
Proof.
  unfold table_name. split.
  - intros H. now rewrite (normalize_address_not_canonical address H).
  - intros H K1 K2.
    assert (E : normalize_address address = Ok (Str.lower (Str.strip address)))
      by now apply normalize_address_Ok.
    rewrite E. simpl.
    apply String.eqb_neq in K1, K2. now rewrite K1, K2.
Qed.

End TableNames.

Section TableNamesInjective.

Local Open Scope string_scope.

Lemma table_name_errors_witness :
  table_name "0x12" "logs" = Raise (ValueError "Invalid Ethereum address format") /\
  table_name sample_address "logs"
  = Raise (ValueError "table_kind must be 'tx' or 'erc20'").
Proof.
  split.
  - apply (proj1 (table_name_errors "0x12" "logs")).
    intros (h & E & L & _). simpl in E. injection E as <-. discriminate L.
  - apply (proj2 (table_name_errors sample_address "logs")).
    + apply fullmatch_canonical. reflexivity.
    + discriminate.
    + discriminate.
Defined.

Lemma append_inj_l (p a b : string) : p ++ a = p ++ b -> a = b.
Proof. induction p as [|c p IH]; simpl; [auto | intros [= H]; auto]. Qed.

(** X3. Two calls of [table_name] return the same table name exactly when the
    kinds are equal and the addresses normalize to the same address: distinct
    wallets and distinct kinds never share a table, and the letter case and
    surrounding whitespace of the address do not matter. *)
Theorem table_name_injective (a b k k' t : string) :
  table_name a k = Ok t ->
  (table_name b k' = Ok t <->
   normalize_address b = normalize_address a /\ k' = k).
Proof.
  intros Ha. pose proof Ha as Ha'.
  apply table_name_Ok in Ha' as (h & Hn & Hl & Hh & K & ->).
  split.
  - intros Hb. apply table_name_Ok in Hb as (h' & Hn' & _ & _ & K' & E).
    destruct K as [-> | ->]; destruct K' as [-> | ->]; simpl in E;
      try discriminate E.
    + injection E as <-. split; [congruence | reflexivity].
    + injection E as <-. split; [congruence | reflexivity].
  - intros [E ->]. unfold table_name in *. now rewrite E.
Qed.

Lemma table_name_injective_witness :
  table_name "  0xDADB0D80178819F2319190D340CE9A924F783711 " "tx"
  = Ok "tx_dadb0d80178819f2319190d340ce9a924f783711".
Proof.
  apply (proj2 (table_name_injective sample_address
                  "  0xDADB0D80178819F2319190D340CE9A924F783711 " "tx" "tx"
                  "tx_dadb0d80178819f2319190d340ce9a924f783711" eq_refl)).
  split; reflexivity.
Defined.

End TableNamesInjective.

(** ** The frontend's address check against the backend's normalizer *)

Section FrontendAddress.

Local Open Scope string_scope.

Lemma lang_Repeat_chars (r : Re.regex) (p : ascii -> bool) :
  (forall s, Re.lang r s <-> exists c, s = String c "" /\ p c = true) ->
  forall n s, Re.lang (Re.Repeat n r) s <->
              String.length s = n /\ Str.all_chars p s = true.
Proof.
  intros Hr. induction n as [|n IH]; intros s; simpl.
  - split.
    + intros ->. now split.
    + intros [H _]. now destruct s.
  - split.
    + intros (s1 & s2 & -> & Hc & Hs). apply Hr in Hc as (c & -> & Hc).
      apply IH in Hs as [Hl Ha]. simpl. rewrite Hl, Hc, Ha. now split.
    + intros [Hl Ha]. destruct s as [|c s]; [discriminate|].
      simpl in Hl, Ha. apply andb_true_iff in Ha as [Hc Ha].
      exists (String c ""), s. split; [reflexivity|]. split.
      * apply Hr. now exists c.
      * apply IH. split; [lia | exact Ha].
Qed.

Lemma lang_mixed_hex (s : string) :
  Re.lang (Re.Alt (Re.Range "a" "f") (Re.Alt (Re.Range "A" "F") (Re.Range "0" "9"))) s
  <-> exists c, s = String c "" /\ is_mixed_hex_digit c = true.
Proof.
  simpl. unfold is_mixed_hex_digit. split.
  - intros [(c & -> & H) | [(c & -> & H) | (c & -> & H)]]; exists c; rewrite H;
      (split; [reflexivity|]); now rewrite ?orb_true_r.
  - intros (c & -> & H).
    apply orb_true_iff in H as [H | H]; [left; now exists c|].
    apply orb_true_iff in H as [H | H]; right; [left | right]; now exists c.
Qed.

Lemma frontend_fullmatch (s : string) :
  Re.fullmatch FRONTEND_ADDRESS_RE s = true <->
  exists h, s = "0x" ++ h /\ String.length h = 40%nat /\
            Str.all_chars is_mixed_hex_digit h = true.
Proof.
  rewrite ReFacts.fullmatch_lang. unfold FRONTEND_ADDRESS_RE.
  cbn [Re.lang]. split.
  - intros (s1 & s2 & -> & -> & s3 & s4 & -> & -> & H).
    apply (lang_Repeat_chars _ _ lang_mixed_hex) in H. now exists s4.
  - intros (h & -> & Hl & Ha).
    exists "0", ("x" ++ h). repeat split.
    exists "x", h. repeat split.
    apply (lang_Repeat_chars _ _ lang_mixed_hex). now split.
Qed.

Lemma mixed_hex_lower (c : ascii) :
  is_mixed_hex_digit c = is_hex_digit (Str.lower_char c).
Proof. destruct c as [[] [] [] [] [] [] [] []]; reflexivity. Qed.

Lemma all_chars_lower (h : string) :
  Str.all_chars is_hex_digit (Str.lower h) = Str.all_chars is_mixed_hex_digit h.
Proof.
  induction h as [|c h IH]; simpl; [reflexivity|].
  now rewrite IH, mixed_hex_lower.
Qed.

Lemma length_lower (s : string) : String.length (Str.lower s) = String.length s.
Proof. induction s as [|c s IH]; simpl; [reflexivity | now rewrite IH]. Qed.

Lemma lower_char_zero (c : ascii) : Str.lower_char c = "0"%char -> c = "0"%char.
Proof.
  destruct c as [[] [] [] [] [] [] [] []]; vm_compute; intros H;
    first [reflexivity | discriminate H].
Qed.

Lemma lower_char_x (c : ascii) :
  Str.lower_char c = "x"%char -> c = "x"%char \/ c = "X"%char.
Proof.
  destruct c as [[] [] [] [] [] [] [] []]; vm_compute; intros H;
    first [now left | now right | discriminate H].
Qed.

Lemma lower_eq_0x (s h : string) :
  Str.lower s = "0x" ++ h ->
  exists c h', s = String "0" (String c h') /\ (c = "x"%char \/ c = "X"%char) /\
               Str.lower h' = h.
Proof.
  destruct s as [|c0 [|c1 s]]; simpl; try discriminate.
  intros [= H0 H1 H]. apply lower_char_zero in H0 as ->.
  apply lower_char_x in H1. now exists c1, s.
Qed.

(** X4. The frontend's check accepts exactly the strings that the backend's
    normalizer accepts and whose trimmed form starts with a lowercase [0x];
    so every address the frontend lets through is normalized by the backend
    to its trimmed, lowercased form, and the only addresses the backend
    accepts beyond those are the ones written with [0X]. *)
Theorem is_valid_eth_address_iff (addr : string) :
  (is_valid_eth_address addr = true <->
   normalize_address addr = Ok (Str.lower (Str.strip addr)) /\
   prefix "0x" (Str.strip addr) = true) /\
  (forall a, normalize_address addr = Ok a ->
             is_valid_eth_address addr = false ->
             prefix "0X" (Str.strip addr) = true).
Proof.
  assert (nonempty : forall h, Str.strip addr = "0x" ++ h -> addr <> "").
  { intros h H ->. discriminate H. }
  split; [split|].
  - unfold is_valid_eth_address. intros H.
    apply andb_true_iff in H as [_ H].
    apply frontend_fullmatch in H as (h & E & Hl & Ha).
    split; [|apply prefix_spec; now exists h].
    apply normalize_address_Ok. split; [reflexivity|].
    rewrite E. exists (Str.lower h). split; [reflexivity|].
    now rewrite length_lower, all_chars_lower.
  - intros [Hn Hp]. apply normalize_address_Ok in Hn as [_ (h & E & Hl & Ha)].
    apply lower_eq_0x in E as (c & h' & E & Hc & <-).
    apply prefix_spec in Hp as (b & Hp). rewrite E in Hp.
    assert (c = "x"%char) as ->.
    { destruct Hc as [-> | ->]; [reflexivity | discriminate Hp]. }
    unfold is_valid_eth_address. apply andb_true_iff. split.
    + apply negb_true_iff, String.eqb_neq. now apply (nonempty h').
    + apply frontend_fullmatch. exists h'. split; [exact E|].
      now rewrite <- length_lower, <- all_chars_lower.
  - intros a Hn Hv. apply normalize_address_Ok in Hn as [-> (h & E & Hl & Ha)].
    apply lower_eq_0x in E as (c & h' & E & Hc & <-).
    destruct Hc as [-> | ->]; [exfalso | apply prefix_spec; now exists h'].
    unfold is_valid_eth_address in Hv.
    assert (V : negb (addr =? "") && Re.fullmatch FRONTEND_ADDRESS_RE (Str.strip addr)
                = true).
    { apply andb_true_iff. split.
      - apply negb_true_iff, String.eqb_neq. now apply (nonempty h').
      - apply frontend_fullmatch. exists h'. split; [exact E|].
        now rewrite <- length_lower, <- all_chars_lower. }
    congruence.
Qed.

Lemma is_valid_eth_address_iff_witness :
  normalize_address " 0xdadB0d80178819F2319190D340ce9A924f783711"
    = Ok "0xdadb0d80178819f2319190d340ce9a924f783711" /\
  prefix "0X" (Str.strip "0XDADB0D80178819F2319190D340CE9A924F783711") = true.
Proof.
  split.
  - apply (proj1 (proj1 (is_valid_eth_address_iff
                           " 0xdadB0d80178819F2319190D340ce9A924f783711"))).
    reflexivity.
  - apply (proj2 (is_valid_eth_address_iff
                    "0XDADB0D80178819F2319190D340CE9A924F783711")
             "0xdadb0d80178819f2319190d340ce9a924f783711");
      reflexivity.
Defined.

End FrontendAddress.

(** ** Saving to the store and reading back *)

Section StoreRoundTrip.

Local Open Scope string_scope.

Lemma fetch_tx_from_db_load (env : Env) (b t : string) :
  table_name b "tx" = Ok t ->
  fetch_tx_from_db env b
  = Ok match db_tx env t with
       | None => empty_tx_frame
       | Some tbl => load_tx_table tbl
       end.
Proof.
  intros H. unfold fetch_tx_from_db. rewrite H. simpl.
  now destruct (db_tx env t).
Qed.

Lemma fetch_erc20_from_db_load (env : Env) (b t : string) :
  table_name b "erc20" = Ok t ->
  fetch_erc20_from_db env b
  = Ok match db_erc20 env t with
       | None => empty_erc20_frame
       | Some tbl => load_erc20_table tbl
       end.
Proof.
  intros H. unfold fetch_erc20_from_db. rewrite H. simpl.
  now destruct (db_erc20 env t).
Qed.

Lemma table_name_same_wallet (a b k : string) :
  normalize_address b = normalize_address a -> table_name b k = table_name a k.
Proof. intros H. unfold table_name. now rewrite H. Qed.

Lemma table_name_other_wallet (a b k t t' : string) :
  normalize_address b <> normalize_address a ->
  table_name a k = Ok t -> table_name b k = Ok t' -> t' <> t.
Proof.
  intros N Ha Hb E. subst t'.
  apply table_name_Ok in Ha as (h & Hn & _ & _ & _ & ->).
  apply table_name_Ok in Hb as (h' & Hn' & _ & _ & _ & E).
  apply append_inj_l in E. apply append_inj_l in E. congruence.
Qed.

Lemma update_table_same {T : Type} (db : string -> option T) (t : string) (v : T) :
  update_table db t v t = Some v.
Proof. unfold update_table. now rewrite String.eqb_refl. Qed.

Lemma update_table_other {T : Type} (db : string -> option T) (t t' : string) (v : T) :
  t' <> t -> update_table db t v t' = db t'.
Proof.
  intros N. unfold update_table. apply String.eqb_neq in N. now rewrite N.
Qed.

Lemma load_placeholder_tx : load_tx_table placeholder_tx_table = empty_tx_frame.
Proof. reflexivity. Qed.

Lemma load_stored_tx (df : TxTable) :
  load_tx_table match txt_rows df with [] => placeholder_tx_table | _ => df end
  = load_tx_table df.
Proof.
  destruct (txt_rows df) eqn:E; [|reflexivity].
  unfold load_tx_table. now rewrite E.
Qed.

Lemma load_stored_erc20 (df : Erc20Table) :
  load_erc20_table
    match erct_rows df with [] => placeholder_erc20_table | _ => df end
  = load_erc20_table df.
Proof.
  destruct (erct_rows df) eqn:E; [|reflexivity].
  unfold load_erc20_table. now rewrite E.
Qed.

Lemma save_to_db_tx_Ok (env env' : Env) (df : TxTable) (address : string) :
  save_to_db_tx env df address = Ok env' ->
  exists t, table_name address "tx" = Ok t /\
    env' = {| ETHERSCAN_API_KEY := ETHERSCAN_API_KEY env;
              db_tx := update_table (db_tx env) t
                         match txt_rows df with
                         | [] => placeholder_tx_table
                         | _ => df
                         end;
              db_erc20 := db_erc20 env;
              etherscan_tag := etherscan_tag env;
              now := now env |}.
Proof.
  unfold save_to_db_tx. destruct (table_name address "tx") as [t|e]; simpl;
    [|discriminate].
  intros [= <-]. now exists t.
Qed.

Lemma save_to_db_erc20_Ok (env env' : Env) (df : Erc20Table) (address : string) :
  save_to_db_erc20 env df address = Ok env' ->
  exists t, table_name address "erc20" = Ok t /\
    env' = {| ETHERSCAN_API_KEY := ETHERSCAN_API_KEY env;
              db_tx := db_tx env;
              db_erc20 := update_table (db_erc20 env) t
                            match erct_rows df with
                            | [] => placeholder_erc20_table
                            | _ => df
                            end;
              etherscan_tag := etherscan_tag env;
              now := now env |}.
Proof.
  unfold save_to_db_erc20. destruct (table_name address "erc20") as [t|e]; simpl;
    [|discriminate].
  intros [= <-]. now exists t.
Qed.

Lemma save_fetch_same_wallet
  (env env1 env2 : Env) (tx_df : TxTable) (erc20_df : Erc20Table)
  (address b : string) :
  save_to_db_tx env tx_df address = Ok env1 ->
  save_to_db_erc20 env1 erc20_df address = Ok env2 ->
  normalize_address b = normalize_address address ->
  fetch_tx_from_db env2 b = Ok (load_tx_table tx_df) /\
  fetch_erc20_from_db env2 b = Ok (load_erc20_table erc20_df).
Proof.
  intros H1 H2 Hb.
  apply save_to_db_tx_Ok in H1 as (t1 & T1 & ->).
  apply save_to_db_erc20_Ok in H2 as (t2 & T2 & ->).
  rewrite <- (table_name_same_wallet address b "tx" Hb) in T1.
  rewrite <- (table_name_same_wallet address b "erc20" Hb) in T2.
  split.
  - rewrite (fetch_tx_from_db_load _ b t1 T1). cbn [db_tx].
    now rewrite update_table_same, load_stored_tx.
  - rewrite (fetch_erc20_from_db_load _ b t2 T2). cbn [db_erc20].
    now rewrite update_table_same, load_stored_erc20.
Qed.

(** X5. Round trip through the store.  After the transactions and the token
    transfers of a wallet are saved, reading them back under any spelling of
    the same address returns what was saved, as the loader presents it (an
    empty frame when an empty frame was saved). *)
Theorem save_then_fetch_round_trip
  (env env1 env2 : Env) (tx_df : TxTable) (erc20_df : Erc20Table)
  (address b : string) :
  save_to_db_tx env tx_df address = Ok env1 ->
  save_to_db_erc20 env1 erc20_df address = Ok env2 ->
  normalize_address b = normalize_address address ->
  fetch_tx_from_db env2 b = Ok (load_tx_table tx_df) /\
  fetch_erc20_from_db env2 b = Ok (load_erc20_table erc20_df).
Proof. exact (save_fetch_same_wallet env env1 env2 tx_df erc20_df address b). Qed.

(** X6. Saving the data of one wallet leaves every other wallet as it was:
    for an address that normalizes differently, both reads return what they
    returned before. *)
Theorem save_leaves_other_wallets
  (env env1 env2 : Env) (tx_df : TxTable) (erc20_df : Erc20Table)
  (address b : string) :
  save_to_db_tx env tx_df address = Ok env1 ->
  save_to_db_erc20 env1 erc20_df address = Ok env2 ->
  normalize_address b <> normalize_address address ->
  fetch_tx_from_db env2 b = fetch_tx_from_db env b /\
  fetch_erc20_from_db env2 b = fetch_erc20_from_db env b.
Proof.
  intros H1 H2 Hb.
  apply save_to_db_tx_Ok in H1 as (t1 & T1 & ->).
  apply save_to_db_erc20_Ok in H2 as (t2 & T2 & ->).
  split.
  - destruct (table_name b "tx") as [t|e] eqn:E.
    + rewrite !(fetch_tx_from_db_load _ b t E). cbn [db_tx].
      now rewrite (update_table_other _ t1 t _
                     (table_name_other_wallet address b "tx" t1 t Hb T1 E)).
    + unfold fetch_tx_from_db. now rewrite E.
  - destruct (table_name b "erc20") as [t|e] eqn:E.
    + rewrite !(fetch_erc20_from_db_load _ b t E). cbn [db_erc20].
      now rewrite (update_table_other _ t2 t _
                     (table_name_other_wallet address b "erc20" t2 t Hb T2 E)).
    + unfold fetch_erc20_from_db. now rewrite E.
Qed.

End StoreRoundTrip.

Section StoreRoundTripExamples.

Local Open Scope string_scope.

Lemma save_then_fetch_round_trip_witness :
  exists env2,
    fetch_tx_from_db env2 sample_address = Ok (load_tx_table sample_tx_table) /\
    fetch_erc20_from_db env2 sample_address = Ok (load_erc20_table no_erc20_table).
Proof.
  eexists.
  eapply (save_then_fetch_round_trip env_offline _ _ sample_tx_table no_erc20_table
            " 0xDADB0D80178819F2319190D340CE9A924F783711" sample_address);
    reflexivity.
Defined.

Lemma save_leaves_other_wallets_witness :
  exists env2,
    fetch_tx_from_db env2 other_address = fetch_tx_from_db env_tokens_only other_address /\
    fetch_erc20_from_db env2 other_address
    = fetch_erc20_from_db env_tokens_only other_address.
Proof.
  eexists.
  eapply (save_leaves_other_wallets env_tokens_only _ _ sample_tx_table
            no_erc20_table sample_address other_address);
    [reflexivity | reflexivity | discriminate].
Defined.

End StoreRoundTripExamples.

(** ** Status and shape of the score result *)

Section ScoreStatus.

Local Open Scope string_scope.

Lemma score_frames_shape (env : Env) (a : string) (df : TxFrame)
  (df_erc20 : Erc20Frame) (n : nat) (sample : list string) :
  exists d,
    score_frames env a df df_erc20 n sample = Ok d /\
    status d = "OK" /\ address d = a /\ weights d = Some WEIGHTS /\
    diagnostics d
    = Some {| scam_counterparties_detected := n;
              scam_addresses_sample := sample;
              tags_source :=
                if ETHERSCAN_API_KEY env then "etherscan_getaddresstag"
                else "not_configured" |}.
Proof.
  unfold score_frames, aggregate. rewrite weighted_final_score_dict. simpl.
  eexists. split; [reflexivity|]. simpl. auto.
Qed.

Lemma calculate_final_score_has_data (env : Env) (x a : string) :
  normalize_address x = Ok a ->
  store_has_no_tx env a = false ->
  exists d, calculate_final_score env x = Ok d /\
            status d = "OK" /\ address d = a.
Proof.
  intros Ha Hs.
  pose proof Ha as Hc. apply normalize_address_Ok in Hc as [_ Hc].
  destruct (fetch_tx_empty_iff env a Hc) as (df & Hf & He).
  rewrite Hs in He.
  destruct (calculate_final_score_scored env x a df Ha Hf He)
    as (df_erc20 & n & sample & _ & _ & ->).
  destruct (score_frames_shape env a df df_erc20 n sample) as (d & E & S & A & _).
  now exists d.
Qed.

Lemma canonical_address_dec (a : string) :
  {canonical_address a} + {~ canonical_address a}.
Proof.
  destruct (Re.fullmatch ETH_ADDRESS_RE a) eqn:E.
  - left. now apply fullmatch_canonical.
  - right. intros H. apply fullmatch_canonical in H. congruence.
Qed.

(** X7. What decides the status.  Scoring always returns a dict whose status
    is one of three strings: the invalid-address message exactly when the
    trimmed, lowercased input is not a canonical address; the could-not-load
    message exactly when it is one and the store has no transaction rows for
    it; and OK exactly when it is one and the store has rows, in which case
    the dict carries the canonical address. *)
Theorem status_decision_table (env : Env) (x : string) :
  let a := Str.lower (Str.strip x) in
  exists d,
    calculate_final_score env x = Ok d /\
    (status d = "Invalid Ethereum address format" <-> ~ canonical_address a) /\
    (status d = "Error: Could not load tx data. Check ingestion step." <->
     canonical_address a /\ store_has_no_tx env a = true) /\
    (status d = "OK" <->
     canonical_address a /\ store_has_no_tx env a = false) /\
    (status d = "OK" -> address d = a).
Proof.
  intros a. destruct (canonical_address_dec a) as [Hc | Hc].
  - assert (Hn : normalize_address x = Ok a) by now apply normalize_address_Ok.
    destruct (store_has_no_tx env a) eqn:Hs.
    + destruct (fetch_tx_empty_iff env a Hc) as (df & Hf & He). rewrite Hs in He.
      exists (error_dict a no_tx_data_msg).
      split; [now apply (calculate_final_score_no_data env x a df)|].
      simpl. repeat split; try tauto; try discriminate; intros [_ H]; discriminate.
    + destruct (calculate_final_score_has_data env x a Hn Hs) as (d & E & S & A).
      exists d. split; [exact E|]. rewrite S.
      repeat split; try tauto; try discriminate; intros [_ H]; discriminate.
  - exists (error_dict x invalid_address_msg).
    split; [now apply calculate_final_score_invalid|].
    simpl. repeat split; try tauto; try discriminate.
Qed.

(** X8. The score does not depend on how the address is written: two inputs
    that normalize to the same address (letter case, surrounding whitespace)
    get the same result. *)
Theorem calculate_final_score_same_wallet (env : Env) (x y a : string) :
  normalize_address x = Ok a ->
  normalize_address y = Ok a ->
  calculate_final_score env x = calculate_final_score env y /\
  calculate_final_score env x = calculate_final_score env a.
Proof.
  intros Hx Hy.
  assert (Ha : normalize_address a = Ok a).
  { apply normalize_address_Ok in Hx as [_ Hc].
    now apply normalize_address_canonical. }
  unfold calculate_final_score. now rewrite Hx, Hy, Ha.
Qed.

Lemma calculate_final_score_same_wallet_witness :
  calculate_final_score env_busy " 0xDADB0D80178819F2319190D340CE9A924F783711"
  = calculate_final_score env_busy "0xdadB0d80178819F2319190D340ce9A924f783711 " /\
  calculate_final_score env_busy " 0xDADB0D80178819F2319190D340CE9A924F783711"
  = calculate_final_score env_busy sample_address.
Proof.
  apply (calculate_final_score_same_wallet env_busy
           " 0xDADB0D80178819F2319190D340CE9A924F783711"
           "0xdadB0d80178819F2319190D340ce9A924f783711 " sample_address);
    reflexivity.
Defined.

End ScoreStatus.

Section ScoreShape.

Local Open Scope R_scope.

Lemma classify_profile_label (fs : R) : In (classify_profile fs) profile_labels.
Proof.
  unfold classify_profile, profile_labels.
  destruct (Rge_dec fs 85); [simpl; auto|].
  destruct (Rge_dec fs 60); [simpl; auto|].
  destruct (Rge_dec fs 30); simpl; auto.
Qed.

Lemma Ok_pair_inj {A B : Type} (a c : A) (b d : B) :
  @Ok (A * B) (a, b) = Ok (c, d) -> a = c /\ b = d.
Proof. intros H. now inversion H. Qed.

Lemma detect_result_shape (env : Env) (df : TxFrame) (n : nat) (sample : list string) :
  detect_tagged_scam_counterparties env df default_max_to_check = Ok (n, sample) ->
  (n <= 40)%nat /\ List.length sample = Nat.min 10 n /\
  (ETHERSCAN_API_KEY env = false -> n = O) /\
  Forall (fun a => canonical_address a /\
                   In a (map Str.lower (map to_ (tx_rows df)))) sample.
Proof.
  rewrite detect_tagged_scam_counterparties_eq.
  set (tagged := filter (flagged env) (candidates df default_max_to_check)).
  assert (Ht : (List.length tagged <= 40)%nat).
  { pose proof (filter_length_le (flagged env) (candidates df default_max_to_check)).
    assert ((List.length (candidates df default_max_to_check) <= 40)%nat)
      by apply firstn_le_length.
    unfold tagged. lia. }
  assert (Hs : Forall (fun a => canonical_address a /\
                         In a (map Str.lower (map to_ (tx_rows df))))
                 (firstn 10 tagged)).
  { apply Forall_forall. intros a Ha. apply In_firstn in Ha.
    apply filter_In in Ha as [Hc Hf]. split.
    - unfold flagged in Hf. apply andb_true_iff in Hf as [Hf _].
      now apply fullmatch_canonical.
    - now apply (candidates_ranked df default_max_to_check). }
  clearbody tagged.
  destruct (ETHERSCAN_API_KEY env) eqn:K.
  - destruct (tx_empty df || negb (tx_has_to df) || negb true); intros H;
      apply Ok_pair_inj in H as [<- <-].
    + repeat split; auto; lia.
    + split; [exact Ht|]. split; [apply length_firstn|].
      split; [discriminate | exact Hs].
  - rewrite !orb_true_r. intros H. apply Ok_pair_inj in H as [<- <-].
    repeat split; auto. lia.
Qed.

(** X9. The shape of a successful result.  A dict with status OK carries the
    canonical address, the five indicators each in [[0,100]], a final_score
    in [[0,100]] that is a whole number of hundredths, one of the four
    profile labels, the weight table, and diagnostics whose count is at most
    40 (0 without an API key) and whose sample holds the first
    [min(10, count)] flagged addresses, each a canonical address that
    occurs as a recipient. *)
Theorem ok_result_shape (env : Env) (x : string) (d : ScoreDict) :
  calculate_final_score env x = Ok d ->
  status d = "OK"%string ->
  address d = Str.lower (Str.strip x) /\
  canonical_address (address d) /\
  (exists A L D G K,
     indicators d = indicators_dict A L D G K /\
     0 <= A <= 100 /\ 0 <= L <= 100 /\ 0 <= D <= 100 /\
     0 <= G <= 100 /\ 0 <= K <= 100) /\
  (exists n, final_score d = Some (IZR n / 100) /\ (0 <= n <= 10000)%Z) /\
  (exists p, profile d = Some p /\ In p profile_labels) /\
  weights d = Some WEIGHTS /\
  (exists diag,
     diagnostics d = Some diag /\
     (scam_counterparties_detected diag <= 40)%nat /\
     List.length (scam_addresses_sample diag)
       = Nat.min 10 (scam_counterparties_detected diag) /\
     (ETHERSCAN_API_KEY env = false -> scam_counterparties_detected diag = O) /\
     Forall canonical_address (scam_addresses_sample diag)).
Proof.
  intros Hd Hs.
  destruct (calculate_final_score_ok env x d Hd Hs)
    as (A & L & D & G & K & HI & HA & HL & HD & HG & HK & HF & HB & HP).
  destruct (normalize_address x) as [a|e] eqn:E.
  2:{ unfold calculate_final_score in Hd. rewrite E in Hd.
      rewrite (normalize_address_raises x e E) in Hd.
      injection Hd as <-. discriminate Hs. }
  pose proof E as Hc. apply normalize_address_Ok in Hc as [Ea Hc].
  destruct (fetch_tx_from_db_total env a Hc) as (df & Hf).
  destruct (tx_empty df) eqn:He.
  { rewrite (calculate_final_score_no_data env x a df E Hf He) in Hd.
    injection Hd as <-. discriminate Hs. }
  destruct (calculate_final_score_scored env x a df E Hf He)
    as (df_erc20 & n & sample & _ & Hdet & Hc').
  rewrite Hc' in Hd.
  destruct (score_frames_shape env a df df_erc20 n sample)
    as (d' & E' & _ & Had & Hw & Hdiag).
  rewrite E' in Hd. injection Hd as <-.
  destruct (detect_result_shape env df n sample Hdet) as (N1 & N2 & N3 & N4).
  split; [congruence|]. split; [now rewrite Had|].
  split; [now exists A, L, D, G, K|].
  split.
  { exists (round_half_even
              ((A * 25 + L * 20 + D * 25 + G * 25 + K * 5) / 100 * 100)).
    split; [exact HF|].
    rewrite <- (round_half_even_IZR 0), <- (round_half_even_IZR 10000).
    split; apply round_half_even_mono; lra. }
  split; [eexists; split; [exact HP | apply classify_profile_label]|].
  split; [exact Hw|].
  eexists. split; [exact Hdiag|]. simpl.
  repeat split; auto.
  apply Forall_forall. intros b Hb. rewrite Forall_forall in N4.
  now apply N4.
Qed.

Lemma scored_wallet_ok :
  exists d, calculate_final_score env_busy sample_address = Ok d /\
            status d = "OK"%string.
Proof.
  rewrite busy_score_frames.
  destruct (aggregate_dict env_busy sample_address 39.99 100 100 100 100 O [])
    as (d & E & S & _).
  now exists d.
Qed.

Lemma ok_result_shape_witness :
  exists d,
    calculate_final_score env_busy sample_address = Ok d /\
    address d = sample_address /\
    (exists n, final_score d = Some (IZR n / 100) /\ (0 <= n <= 10000)%Z) /\
    weights d = Some WEIGHTS.
Proof.
  destruct scored_wallet_ok as (d & Hd & Hs).
  exists d. split; [exact Hd|].
  destruct (ok_result_shape env_busy sample_address d Hd Hs)
    as (H1 & _ & _ & H4 & _ & H6 & _).
  repeat split; assumption.
Defined.

End ScoreShape.

(** ** The scoring endpoint *)

Section Endpoint.

Local Open Scope string_scope.

Lemma mixed_hex_not_space (c : ascii) :
  is_mixed_hex_digit c = true -> Str.isspace c = false.
Proof.
  destruct c as [[] [] [] [] [] [] [] []]; vm_compute; intros H;
    first [reflexivity | discriminate H].
Qed.

Lemma rstrip_no_space (s : string) :
  Str.all_chars (fun c => negb (Str.isspace c)) s = true -> Str.rstrip s = s.
Proof.
  induction s as [|c s IH]; simpl; [reflexivity|].
  intros H. apply andb_true_iff in H as [Hc Hs]. apply negb_true_iff in Hc.
  rewrite (IH Hs), Hc. now destruct s.
Qed.

(** An address that the path pattern accepts is normalized to its lowercase
    form. *)
Lemma path_address_normalizes (address : string) :
  Re.fullmatch FRONTEND_ADDRESS_RE address = true ->
  normalize_address address = Ok (Str.lower address).
Proof.
  intros H. apply frontend_fullmatch in H as (h & -> & Hl & Ha).
  assert (S : Str.strip ("0x" ++ h) = "0x" ++ h).
  { unfold Str.strip. cbn [append Str.lstrip]. change (Str.isspace "0") with false.
    cbv iota. apply rstrip_no_space. simpl.
    apply (all_chars_impl is_mixed_hex_digit); [|exact Ha].
    intros c Hc. now rewrite (mixed_hex_not_space c Hc). }
  apply normalize_address_Ok. rewrite S. split; [reflexivity|].
  exists (Str.lower h). split; [reflexivity|].
  now rewrite length_lower, all_chars_lower.
Qed.

Lemma save_both (env : Env) (tx_df : TxTable) (erc20_df : Erc20Table)
  (address a : string) :
  normalize_address address = Ok a ->
  exists env1 env2,
    save_to_db_tx env tx_df address = Ok env1 /\
    save_to_db_erc20 env1 erc20_df address = Ok env2 /\
    (txt_rows tx_df <> [] -> store_has_no_tx env2 a = txt_empty_flag tx_df).
Proof.
  intros Hn. unfold save_to_db_tx, save_to_db_erc20, table_name.
  rewrite Hn. simpl. eexists _, _. split; [reflexivity|]. split; [reflexivity|].
  intros Hr. unfold store_has_no_tx. cbn [db_tx].
  rewrite update_table_same. destruct (txt_rows tx_df) eqn:E; [contradiction|].
  now rewrite E.
Qed.

(** X10. What a scoring request ends in, for an address that the path pattern
    accepts.  The function never lets an exception escape.  Without an API
    key it raises the 500 "key not configured" and leaves the store alone;
    when the ingestion returns no transaction it raises the 404 and leaves
    the store alone; otherwise it saves both frames and returns the score
    dict with status OK for the lowercased address, computed from a store
    that now reads back the ingested frames.  Its own 500 for a status other
    than OK can only be raised when the ingested frame has an [empty_flag]
    column. *)
Theorem get_wallet_score_outcomes (env : Env) (ex : Explorer) (x : string) :
  Re.fullmatch FRONTEND_ADDRESS_RE x = true ->
  exists env' r,
    get_wallet_score env ex x = Ok (env', r) /\
    (ETHERSCAN_API_KEY env = false ->
     env' = env /\
     r = HTTPException 500 "Etherscan API key is not configured in .env") /\
    (ETHERSCAN_API_KEY env = true ->
     exists tx_df erc20_df,
       get_wallet_transactions env ex x = Ok tx_df /\
       get_wallet_erc20_transfers env ex x = Ok erc20_df /\
       (txt_rows tx_df = [] ->
        env' = env /\
        r = HTTPException 404
              "No transactions found for the address or API error occurred.") /\
       (txt_rows tx_df <> [] ->
        fetch_tx_from_db env' x = Ok (load_tx_table tx_df) /\
        fetch_erc20_from_db env' x = Ok (load_erc20_table erc20_df) /\
        (txt_empty_flag tx_df = false ->
         exists d, r = Response200 d /\ status d = "OK" /\
                   address d = Str.lower x /\
                   calculate_final_score env' x = Ok d) /\
        (txt_empty_flag tx_df = true ->
         r = HTTPException 500
               "Error: Could not load tx data. Check ingestion step."))).
Proof.
  intros Hp. pose proof (path_address_normalizes x Hp) as Hn.
  set (a := Str.lower x) in *.
  unfold get_wallet_score, extract_wallet_data, get_wallet_transactions,
    get_wallet_erc20_transfers.
  rewrite Hn. cbn [bind].
  destruct (ETHERSCAN_API_KEY env) eqn:K; cbn [negb].
  2:{ exists env, (HTTPException 500 api_key_missing_msg).
      split; [reflexivity|]. split; [auto | discriminate]. }
  set (tx_df := match txlist ex a with
                | Some data => _
                | None => no_tx_table
                end).
  set (erc20_df := match tokentx ex a with
                   | Some data => _
                   | None => no_erc20_table
                   end).
  destruct (txt_rows tx_df) as [|r0 rows] eqn:Er.
  - exists env, (HTTPException 404 no_transactions_detail).
    split; [reflexivity|]. split; [discriminate|].
    intros _. exists tx_df, erc20_df.
    split; [reflexivity|]. split; [reflexivity|].
    split; [auto | intros N; contradiction].
  - destruct (save_both env tx_df erc20_df x a Hn) as (env1 & env2 & S1 & S2 & Hs).
    assert (Hr : txt_rows tx_df <> []) by (rewrite Er; discriminate).
    specialize (Hs Hr).
    destruct (save_fetch_same_wallet env env1 env2 tx_df erc20_df x x S1 S2 eq_refl)
      as [F1 F2].
    rewrite S1. cbn [bind]. rewrite S2. cbn [bind].
    destruct (txt_empty_flag tx_df) eqn:Ef.
    + assert (Hc : canonical_address a)
        by (apply normalize_address_Ok in Hn; tauto).
      destruct (fetch_tx_empty_iff env2 a Hc) as (df & Hf & He). rewrite Hs in He.
      rewrite (calculate_final_score_no_data env2 x a df Hn Hf He).
      exists env2, (HTTPException 500 no_tx_data_msg).
      split; [reflexivity|]. split; [discriminate|].
      intros _. exists tx_df, erc20_df.
      split; [reflexivity|]. split; [reflexivity|].
      split; [intros E; rewrite E in Er; discriminate|].
      intros _. split; [exact F1|]. split; [exact F2|].
      split; [intros H; congruence | reflexivity].
    + destruct (calculate_final_score_has_data env2 x a Hn Hs) as (d & E & S & A).
      rewrite E. cbn [bind]. rewrite S. cbn [String.eqb negb].
      exists env2, (Response200 d).
      split; [reflexivity|]. split; [discriminate|].
      intros _. exists tx_df, erc20_df.
      split; [reflexivity|]. split; [reflexivity|].
      split; [intros E'; rewrite E' in Er; discriminate|].
      intros _. split; [exact F1|]. split; [exact F2|].
      split; [|intros H; congruence].
      intros _. exists d. auto.
Qed.

End Endpoint.

Section EndpointExample.

Local Open Scope string_scope.

Lemma get_wallet_score_outcomes_witness :
  exists env' d,
    get_wallet_score env_keyed explorer_sample
      "0xdadB0d80178819F2319190D340ce9A924f783711" = Ok (env', Response200 d) /\
    status d = "OK" /\ address d = sample_address.
Proof.
  destruct (get_wallet_score_outcomes env_keyed explorer_sample
              "0xdadB0d80178819F2319190D340ce9A924f783711" eq_refl)
    as (env' & r & E & _ & H).
  destruct (H eq_refl) as (tx_df & erc20_df & T & _ & _ & H').
  assert (T' : Ok tx_df = Ok sample_tx_table) by (rewrite <- T; reflexivity).
  injection T' as ->.
  destruct H' as (_ & _ & Hok & _); [discriminate|].
  destruct (Hok eq_refl) as (d & -> & S & A & _).
  now exists env', d.
Defined.

End EndpointExample.

(** ** Query history *)

Section History.

Local Open Scope string_scope.

Lemma filter_history_NoDup (keep : HistoryItem -> bool) (h : list HistoryItem) :
  NoDup (map h_address h) -> NoDup (map h_address (filter keep h)).
Proof.
  intros H. induction h as [|x h IH]; simpl in *; [constructor|].
  apply NoDup_cons_iff in H as [Hx Hl].
  destruct (keep x); simpl; [constructor|]; auto.
  intros Hin. apply Hx. apply in_map_iff in Hin as (y & Hy & Hin).
  apply filter_In in Hin as [Hin _]. apply in_map_iff. now exists y.
Qed.

Lemma NoDup_firstn {A : Type} (n : nat) (l : list A) : NoDup l -> NoDup (firstn n l).
Proof.
  intros H. rewrite <- (firstn_skipn n l) in H. now apply NoDup_app_remove_r in H.
Qed.

Lemma upsert_history_ok (ts : string) (p : Payload) (h : list HistoryItem) :
  history_ok h -> history_ok (upsert_history ts p h).
Proof.
  intros (Hl & Hn & Hf). unfold upsert_history.
  destruct (pl_address p) as [addr|] eqn:Ea; [|now repeat split].
  destruct (String.eqb_spec addr "") as [-> | Hne]; [now repeat split|].
  set (item := {| h_address := addr; h_ts := ts;
                  h_final_score := pl_final_score p;
                  h_profile := pl_profile p; h_payload := p |}).
  set (rest := filter (fun i => negb (h_address i =? addr)) h).
  split; [apply firstn_le_length|]. split.
  - rewrite <- firstn_map. apply NoDup_firstn. simpl. constructor.
    + intros Hin. apply in_map_iff in Hin as (i & Hi & Hin).
      apply filter_In in Hin as [_ Hin]. apply negb_true_iff in Hin.
      apply String.eqb_neq in Hin. contradiction.
    + now apply filter_history_NoDup.
  - apply Forall_forall. intros i Hi. apply In_firstn in Hi.
    destruct Hi as [<- | Hi]; [simpl; auto|].
    apply filter_In in Hi as [Hi _]. rewrite Forall_forall in Hf. now apply Hf.
Qed.

End History.

Section HistorySpec.

Local Open Scope string_scope.

Lemma history_after_ok (events : list (string * Payload)) :
  history_ok (history_after events).
Proof.
  unfold history_after.
  assert (G : forall h, history_ok h ->
                history_ok (fold_left (fun h e => upsert_history (fst e) (snd e) h)
                              events h)).
  { induction events as [|e events IH]; intros h Hh; simpl; [exact Hh|].
    apply IH. now apply upsert_history_ok. }
  apply G. repeat split; simpl; [lia | constructor | constructor].
Qed.

(** X11. Whatever payloads a session upserts, starting from the empty
    history, the history has at most 20 entries, lists no address twice, and
    every entry has a non-empty address and carries the address, score and
    profile of its own payload. *)
Theorem history_invariant (events : list (string * Payload)) :
  (List.length (history_after events) <= 20)%nat /\
  NoDup (map h_address (history_after events)) /\
  Forall (fun i => h_address i <> "" /\
                   pl_address (h_payload i) = Some (h_address i) /\
                   h_final_score i = pl_final_score (h_payload i) /\
                   h_profile i = pl_profile (h_payload i))
    (history_after events).
Proof. exact (history_after_ok events). Qed.

(** X12. Upserting a payload with a non-empty address into a history of at
    most 20 entries puts its entry first and removes the older entry of that
    address; the other entries are entries of the old history.  None of them
    is evicted when the address was already listed or the history had fewer
    than 20 entries. *)
Theorem upsert_history_front
  (ts addr : string) (p : Payload) (h : list HistoryItem) :
  pl_address p = Some addr ->
  addr <> "" ->
  (List.length h <= 20)%nat ->
  let item := {| h_address := addr; h_ts := ts;
                 h_final_score := pl_final_score p;
                 h_profile := pl_profile p; h_payload := p |} in
  hd_error (upsert_history ts p h) = Some item /\
  (forall i, In i (tl (upsert_history ts p h)) -> In i h /\ h_address i <> addr) /\
  (In addr (map h_address h) \/ (List.length h < 20)%nat ->
   forall i, In i h -> h_address i <> addr -> In i (upsert_history ts p h)).
Proof.
  intros Ha Hne Hl item. unfold upsert_history. rewrite Ha.
  apply String.eqb_neq in Hne. rewrite Hne. fold item.
  set (rest := filter (fun i => negb (h_address i =? addr)) h).
  change (firstn 20 (item :: rest)) with (item :: firstn 19 rest).
  split; [reflexivity|]. split.
  - cbn [tl]. intros i Hi. apply In_firstn in Hi.
    apply filter_In in Hi as [Hi Hn]. split; [exact Hi|].
    now apply negb_true_iff, String.eqb_neq in Hn.
  - intros Hc i Hi Hn.
    assert (Hr : (List.length rest <= 19)%nat).
    { destruct Hc as [Hc | Hc].
      - apply in_map_iff in Hc as (j & Hj & Hin).
        assert (Hlt : (List.length rest < List.length h)%nat).
        { unfold rest. clear -Hj Hin. induction h as [|k h IH]; [destruct Hin|].
          simpl. destruct Hin as [-> | Hin].
          - rewrite Hj, String.eqb_refl. simpl.
            pose proof (filter_length_le
                          (fun i => negb (h_address i =? addr)) h). lia.
          - specialize (IH Hin).
            destruct (negb (h_address k =? addr)); simpl; lia. }
        lia.
      - pose proof (filter_length_le (fun i => negb (h_address i =? addr)) h).
        unfold rest. lia. }
    right. rewrite firstn_all2 by exact Hr.
    apply filter_In. split; [exact Hi|].
    now apply negb_true_iff, String.eqb_neq.
Qed.

Lemma upsert_history_front_witness :
  hd_error (upsert_history "2024-01-02 00:00:00 UTC" (sample_payload sample_address)
              (history_after
                 [("2024-01-01 00:00:00 UTC", sample_payload sample_address);
                  ("2024-01-01 00:01:00 UTC", sample_payload other_address)]))
  = Some {| h_address := sample_address;
            h_ts := "2024-01-02 00:00:00 UTC";
            h_final_score := Some 50%R;
            h_profile := Some "Inactive/New User - Low Reputation";
            h_payload := sample_payload sample_address |}.
Proof.
  apply (upsert_history_front "2024-01-02 00:00:00 UTC" sample_address
           (sample_payload sample_address)).
  - reflexivity.
  - discriminate.
  - apply (history_after_ok
             [("2024-01-01 00:00:00 UTC", sample_payload sample_address);
              ("2024-01-01 00:01:00 UTC", sample_payload other_address)]).
Defined.

End HistorySpec.

(** ** Indicators that do not depend on the order of the rows *)

Section RowOrder.

Local Open Scope R_scope.










End RowOrder.

Section RowOrderExample.


End RowOrderExample.

(** ** Monotone pieces of the indicator formulas *)

Section Monotone.

Local Open Scope R_scope.

Lemma clip_mono (x y lo hi : R) : x <= y -> clip x lo hi <= clip y lo hi.
Proof.
  intros H. unfold clip, Rmin, Rmax.
  destruct (Rle_dec x lo); destruct (Rle_dec y lo);
    repeat match goal with |- context [Rle_dec ?a ?b] => destruct (Rle_dec a b) end;
    lra.
Qed.



Lemma ln_mono (x y : R) : 0 < x -> x <= y -> ln x <= ln y.
Proof.
  intros Hx [H | <-]; [left; now apply ln_increasing | lra].
Qed.

Lemma exp_mono (x y : R) : x <= y -> exp x <= exp y.
Proof.
  intros [H | <-]; [left; now apply exp_increasing | lra].
Qed.








End Monotone.

(** ** More rows: which way each indicator moves *)

Section MoreRows.

Local Open Scope R_scope.





Lemma risk_decay_mono (lam x y : R) :
  0 <= lam -> x <= y ->
  round2 (clip (100 * exp (- lam * y)) 0 100)
  <= round2 (clip (100 * exp (- lam * x)) 0 100).
Proof.
  intros Hl H. apply round2_mono, clip_mono.
  apply Rmult_le_compat_l; [lra|]. apply exp_mono. nra.
Qed.





End MoreRows.

(** ** Where the indicators saturate *)

Section Saturation.

Local Open Scope R_scope.

Lemma round2_IZR (k : Z) : round2 (IZR k) = IZR k.
Proof.
  replace (IZR k) with (IZR (k * 100) / 100) at 1
    by (rewrite mult_IZR; lra).
  rewrite round2_exact, mult_IZR. lra.
Qed.

Lemma clip_above (x lo hi : R) : lo <= hi -> hi <= x -> clip x lo hi = hi.
Proof.
  intros H1 H2. unfold clip, Rmin, Rmax.
  destruct (Rle_dec x lo); destruct (Rle_dec _ hi); lra.
Qed.

Lemma ln_ratio_ge_1 (x y : R) : 1 < y -> y <= x -> 1 <= ln x / ln y.
Proof.
  intros Hy H. assert (0 < ln y) by now apply ln_pos.
  assert (ln y <= ln x) by (apply ln_mono; lra).
  apply Rmult_le_reg_r with (ln y); [assumption|].
  unfold Rdiv. rewrite Rmult_assoc, Rinv_l; lra.
Qed.

Lemma risk_decay_one_incident (lam k : R) :
  0 < lam -> 1 <= k ->
  round2 (clip (100 * exp (- lam * k)) 0 100) <= round2 (100 / (1 + lam)).
Proof.
  intros Hl Hk. apply round2_mono.
  assert (E : exp (- lam * k) <= / (1 + lam)).
  { apply Rle_trans with (exp (- lam)); [apply exp_mono; nra|].
    rewrite exp_Ropp. apply Rinv_le_contravar; [lra | apply exp_ineq1_le]. }
  assert (0 < / (1 + lam)) by (apply Rinv_0_lt_compat; lra).
  assert (/ (1 + lam) <= 1).
  { rewrite <- Rinv_1. apply Rinv_le_contravar; lra. }
  pose proof (exp_pos (- lam * k)).
  rewrite clip_inside by nra. unfold Rdiv. nra.
Qed.

(** X15. What an incident costs.  On a non-empty frame General_Risk_Score is
    100 when the incident count (transactions to the known-scam set plus the
    tagged count) is 0 and at most 52.64 as soon as it is 1 or more, and it
    never goes up when the tagged count grows; Asset_Risk_Score is 100 with
    no incident and at most 62.5 with one or more. *)
Theorem risk_scores_and_incidents
  (df : TxFrame) (e : Erc20Frame) (tagged tagged' : Z) :
  tx_empty df = false ->
  (0 <= tagged)%Z ->
  let listed :=
    if tx_has_to df
    then count_isin KNOWN_SCAM_ADDRESSES (map to_ (tx_rows df)) else O in
  let tools :=
    if tx_has_to df
    then count_isin MIXER_OR_PRIVACY_TOOLING (map to_ (tx_rows df)) else O in
  let tokens :=
    if negb (erc20_empty e) && erc20_has_contractAddress e
    then count_isin PRIVACY_TOKEN_CONTRACTS (map contractAddress (erc20_rows e))
    else O in
  (listed = O -> tagged = 0%Z -> calculate_general_risk_score df tagged = 100) /\
  ((1 <= Z.of_nat listed + tagged)%Z ->
   calculate_general_risk_score df tagged <= 52.64) /\
  ((tagged <= tagged')%Z ->
   calculate_general_risk_score df tagged'
   <= calculate_general_risk_score df tagged) /\
  ((tools + tokens = 0)%nat -> calculate_asset_risk_score df e = 100) /\
  ((1 <= tools + tokens)%nat -> calculate_asset_risk_score df e <= 62.5).
Proof.
  intros He Ht listed tools tokens.
  unfold calculate_general_risk_score, calculate_asset_risk_score.
  rewrite He. cbv zeta. cbn [negb andb].
  fold listed tools tokens.
  split; [|split; [|split; [|split]]].
  - intros -> ->. cbn [Z.of_nat Z.add]. apply risk_score_no_incident.
  - intros H. apply IZR_le in H.
    eapply Rle_trans; [apply risk_decay_one_incident; lra|].
    replace 52.64 with (round2 (IZR 5264 / 100))
      by (rewrite round2_exact; lra).
    apply round2_mono. lra.
  - intros H. apply risk_decay_mono; [lra|]. apply IZR_le. lia.
  - intros ->. cbn [INR]. apply risk_score_no_incident.
  - intros H. apply le_INR in H. cbn [INR] in H.
    eapply Rle_trans; [apply risk_decay_one_incident; lra|].
    replace 62.5 with (round2 (IZR 6250 / 100))
      by (rewrite round2_exact; lra).
    apply round2_mono. lra.
Qed.

(** X16. Longevity_Score at its ends.  On a non-empty frame it is 100 as soon
    as the earliest transaction is 730 days old or older, and 0 when the
    earliest transaction is less than one day old or lies in the future. *)
Theorem longevity_saturation (env : Env) (df : TxFrame) :
  tx_empty df = false ->
  let first_tx := series_min (map datetime (tx_rows df)) in
  ((730 * 86400 <= now env - first_tx)%Z ->
   calculate_longevity_score env df = 100) /\
  ((now env - first_tx < 86400)%Z ->
   calculate_longevity_score env df = 0).
Proof.
  intros He first_tx. unfold calculate_longevity_score. rewrite He. cbv zeta.
  fold first_tx.
  set (q := ((now env - first_tx) / 86400)%Z).
  pose proof ln_731_pos as P.
  destruct (Rlt_dec 0 (ln (730 + 1))) as [_ | N]; [|contradiction].
  split; intros H.
  - assert (Hq : (730 <= q)%Z) by (apply Z.div_le_lower_bound; lia).
    assert (Hd : (730 <= Z.max q 0)%Z) by lia.
    apply IZR_le in Hd.
    assert (1 <= ln (IZR (Z.max q 0) + 1) / ln (730 + 1))
      by (apply ln_ratio_ge_1; lra).
    unfold Rmin. destruct (Rle_dec _ 100); [|apply round2_100].
    replace (ln (IZR (Z.max q 0) + 1) / ln (730 + 1) * 100) with 100 by lra.
    apply round2_100.
  - assert (Hq : (q < 1)%Z) by (apply Z.div_lt_upper_bound; lia).
    replace (Z.max q 0) with 0%Z by lia.
    replace (0 + 1) with 1 by lra. rewrite ln_1.
    replace (0 / ln (730 + 1) * 100) with 0 by (unfold Rdiv; lra).
    unfold Rmin. destruct (Rle_dec 0 100); [apply round2_0 | lra].
Qed.

End Saturation.

Section SaturationMore.

Local Open Scope R_scope.

Lemma risk_scores_and_incidents_witness :
  calculate_general_risk_score
    (tx_append (one_year_frame env_offline) [scam_row env_offline]) 0 <= 52.64 /\
  calculate_asset_risk_score
    (tx_append (one_year_frame env_offline) [scam_row env_offline])
    empty_erc20_frame = 100.
Proof.
  destruct (risk_scores_and_incidents
              (tx_append (one_year_frame env_offline) [scam_row env_offline])
              empty_erc20_frame 0 0 eq_refl ltac:(lia))
    as (_ & H2 & _ & H4 & _).
  split; [apply H2 | apply H4]; vm_compute; [discriminate | reflexivity].
Defined.

Lemma longevity_saturation_witness :
  calculate_longevity_score env_busy busy_frame = 100.
Proof.
  apply (proj1 (longevity_saturation env_busy busy_frame busy_frame_not_empty)).
  rewrite busy_frame_datetime. vm_compute. discriminate.
Defined.

(** X17. Diversity_Score is exactly four points per distinct recipient,
    capped at 100: on a non-empty frame it equals [min(100, 4 * u)] for the
    number [u] of distinct recipients (0 without a recipient column), so 25
    distinct recipients or more give 100 and the rounding never changes the
    value. *)
Theorem diversity_exact (df : TxFrame) :
  tx_empty df = false ->
  let u := if tx_has_to df
           then List.length (unique (map to_ (tx_rows df))) else O in
  calculate_diversity_score df = IZR (Z.min 100 (4 * Z.of_nat u)) /\
  ((25 <= u)%nat -> calculate_diversity_score df = 100).
Proof.
  intros He u. unfold calculate_diversity_score. rewrite He. cbv zeta. fold u.
  destruct (Rlt_dec 0 25); [|lra].
  assert (E : INR u / 25 * 100 = IZR (4 * Z.of_nat u)).
  { rewrite mult_IZR, <- INR_IZR_INZ. lra. }
  rewrite E.
  assert (M : Rmin 100 (IZR (4 * Z.of_nat u)) = IZR (Z.min 100 (4 * Z.of_nat u))).
  { unfold Rmin. destruct (Rle_dec 100 (IZR (4 * Z.of_nat u))) as [H | H].
    - apply le_IZR in H. now rewrite Z.min_l.
    - rewrite Z.min_r; [reflexivity|].
      destruct (Z.le_gt_cases (4 * Z.of_nat u) 100) as [L | L]; [exact L|].
      exfalso. apply H. apply IZR_le. lia. }
  rewrite M, round2_IZR. split; [reflexivity|].
  intros H. rewrite Z.min_l by lia. reflexivity.
Qed.

Lemma diversity_exact_witness :
  calculate_diversity_score (one_year_frame env_offline) = IZR (Z.min 100 (4 * 1)).
Proof.
  apply (proj1 (diversity_exact (one_year_frame env_offline) eq_refl)).
Defined.

(** X18. Activity_Score at its caps.  On a non-empty frame it is 100 when
    there are 5000 transactions or more and the volume is 10000 ETH or more;
    with zero volume it is at most 50, and exactly 50 from 5000 transactions
    on: the count alone never earns more than half. *)
Theorem activity_saturation (df : TxFrame) :
  tx_empty df = false ->
  let n := List.length (tx_rows df) in
  let v := sum_R (map value_eth (tx_rows df)) in
  ((5000 <= n)%nat -> 10000 <= v -> calculate_activity_score df = 100) /\
  (v = 0 -> calculate_activity_score df <= 50) /\
  ((5000 <= n)%nat -> v = 0 -> calculate_activity_score df = 50).
Proof.
  intros He n v. unfold calculate_activity_score. rewrite He. cbv zeta.
  fold n v.
  rewrite !log10_ratio by lra.
  assert (Z0 : v = 0 -> clip (ln (v + 1) / ln (10000 + 1)) 0 1 = 0).
  { intros ->. replace (0 + 1) with 1 by lra. rewrite ln_1.
    unfold Rdiv. rewrite Rmult_0_l. apply clip_inside. lra. }
  assert (C : (5000 <= n)%nat -> clip (ln (INR n + 1) / ln (5000 + 1)) 0 1 = 1).
  { intros H. apply le_INR in H. rewrite INR_IZR_INZ in H at 1.
    change (Z.of_nat 5000) with 5000%Z in H.
    apply clip_above; [lra|]. apply ln_ratio_ge_1; lra. }
  split; [|split].
  - intros Hn Hv. rewrite (C Hn).
    rewrite (clip_above _ 0 1); [|lra | apply ln_ratio_ge_1; lra].
    replace ((0.5 * 1 + 0.5 * 1) * 100) with 100 by lra. apply round2_100.
  - intros Hv. rewrite (Z0 Hv).
    pose proof (clip_bounds (ln (INR n + 1) / ln (5000 + 1)) 0 1).
    replace 50 with (round2 (IZR 5000 / 100)) by (rewrite round2_exact; lra).
    apply round2_mono. lra.
  - intros Hn Hv. rewrite (C Hn), (Z0 Hv).
    replace ((0.5 * 1 + 0.5 * 0) * 100) with (IZR 5000 / 100) by lra.
    rewrite round2_exact. lra.
Qed.

Lemma activity_saturation_witness :
  calculate_activity_score busy_frame <= 50.
Proof.
  apply (proj1 (proj2 (activity_saturation busy_frame busy_frame_not_empty))).
  unfold busy_frame. cbn [tx_rows].
  apply (sum_R_zero_values _ busy_rows_zero_value).
Defined.

End SaturationMore.

(** ** Monotonicity of the classifier and of the aggregator *)

Section MonotoneScore.

Local Open Scope R_scope.

Lemma is_scam_label_Some (t : TagObj) :
  is_scam_label (Some t) = true <->
  exists s m, In s (labels t ++ labels_slug t)%list /\ In m scam_markers /\
              Substring m (Str.lower s).
Proof.
  cbn [is_scam_label]. rewrite orb_true_iff, !any_marker_spec. split.
  - intros [(s & m & Hs & H) | (s & m & Hs & H)]; exists s, m;
      (split; [apply in_or_app; auto | exact H]).
  - intros (s & m & Hs & H).
    apply in_app_or in Hs as [Hs | Hs]; [left | right]; now exists s, m.
Qed.

(** X19. The scam classifier is monotone in the labels: when every label and
    slug of one label info occurs among the labels and slugs of another, and
    the first is classified as scam, so is the second.  In particular the
    result does not depend on the order of the labels, nor on whether a text
    is listed as a label or as a slug. *)
Theorem is_scam_label_monotone (t t' : TagObj) :
  incl (labels t ++ labels_slug t)%list (labels t' ++ labels_slug t')%list ->
  is_scam_label (Some t) = true ->
  is_scam_label (Some t') = true.
Proof.
  intros Hi H. apply is_scam_label_Some in H as (s & m & Hs & H).
  apply is_scam_label_Some. exists s, m. split; [now apply Hi | exact H].
Qed.

Lemma is_scam_label_monotone_witness :
  is_scam_label
    (Some {| labels := ["Exchange"; "Phish / Hack"]; labels_slug := ["dex"] |})
  = true.
Proof.
  apply (is_scam_label_monotone
           {| labels := []; labels_slug := ["Phish / Hack"%string] |}).
  - intros s [<- | []]. simpl. auto.
  - reflexivity.
Defined.

Lemma classify_profile_rank_mono (f f' : R) :
  f <= f' ->
  (profile_rank (classify_profile f) <= profile_rank (classify_profile f'))%nat.
Proof.
  intros H. unfold classify_profile.
  destruct (Rge_dec f 85); destruct (Rge_dec f' 85); try lra;
    destruct (Rge_dec f 60); destruct (Rge_dec f' 60); try lra;
    destruct (Rge_dec f 30); destruct (Rge_dec f' 30); try lra;
    vm_compute; lia.
Qed.

(** X20. A better indicator never hurts.  When each of the five indicators of
    one wallet is at most the corresponding indicator of another, the
    weighted score, the returned final_score and the rank of the profile of
    the first are at most those of the second. *)
Theorem better_indicators_never_hurt
  (env : Env) (a : string) (n : nat) (sample : list string)
  (A L D G K A' L' D' G' K' : R) :
  A <= A' -> L <= L' -> D <= D' -> G <= G' -> K <= K' ->
  exists d d' f f' p p',
    aggregate env a (indicators_dict A L D G K) n sample = Ok d /\
    aggregate env a (indicators_dict A' L' D' G' K') n sample = Ok d' /\
    final_score d = Some f /\ final_score d' = Some f' /\ f <= f' /\
    profile d = Some p /\ profile d' = Some p' /\
    (profile_rank p <= profile_rank p')%nat.
Proof.
  intros HA HL HD HG HK.
  destruct (aggregate_dict env a A L D G K n sample) as (d & E & _ & F & P & _).
  destruct (aggregate_dict env a A' L' D' G' K' n sample)
    as (d' & E' & _ & F' & P' & _).
  assert (M : (A * 25 + L * 20 + D * 25 + G * 25 + K * 5) / 100
              <= (A' * 25 + L' * 20 + D' * 25 + G' * 25 + K' * 5) / 100) by lra.
  exists d, d'. eexists _, _, _, _.
  split; [exact E|]. split; [exact E'|]. split; [exact F|]. split; [exact F'|].
  split; [now apply round2_mono|]. split; [exact P|]. split; [exact P'|].
  now apply classify_profile_rank_mono.
Qed.

Lemma better_indicators_never_hurt_witness :
  exists d d' f f',
    aggregate env_offline sample_address (indicators_dict 10 20 30 40 50) 0 []
      = Ok d /\
    aggregate env_offline sample_address (indicators_dict 90 20 30 100 50) 0 []
      = Ok d' /\
    final_score d = Some f /\ final_score d' = Some f' /\ f <= f'.
Proof.
  destruct (better_indicators_never_hurt env_offline sample_address O []
              10 20 30 40 50 90 20 30 100 50)
    as (d & d' & f & f' & p & p' & H1 & H2 & H3 & H4 & H5 & _); try lra.
  now exists d, d', f, f'.
Defined.

End MonotoneScore.

(** ** Frames read from the store *)

Section FetchedFrames.

Local Open Scope string_scope.

Lemma lower_char_idem (c : ascii) :
  Str.lower_char (Str.lower_char c) = Str.lower_char c.
Proof. destruct c as [[] [] [] [] [] [] [] []]; reflexivity. Qed.

Lemma lower_idem (s : string) : Str.lower (Str.lower s) = Str.lower s.
Proof.
  induction s as [|c s IH]; simpl; [reflexivity|].
  now rewrite lower_char_idem, IH.
Qed.

Lemma load_tx_table_lower (t : TxTable) :
  Forall (fun r => Str.lower (to_ r) = to_ r) (tx_rows (load_tx_table t)).
Proof.
  unfold load_tx_table. destruct (txt_rows t) as [|r rows]; [constructor|].
  destruct (txt_empty_flag t); [constructor|]. cbn [tx_rows].
  apply Forall_forall. intros x Hx. apply in_map_iff in Hx as (y & <- & _).
  apply lower_idem.
Qed.

(** X21. A frame read from the store has lowercase recipients, however the
    store spells them: lowercasing a recipient of the frame again changes
    nothing, so the scan ranks exactly the recipients the indicators see,
    and the frame has one row per stored row unless it is empty. *)
Theorem fetched_frame_lowercase (env : Env) (x : string) (df : TxFrame) :
  fetch_tx_from_db env x = Ok df ->
  Forall (fun r => Str.lower (to_ r) = to_ r) (tx_rows df) /\
  map Str.lower (map to_ (tx_rows df)) = map to_ (tx_rows df) /\
  (forall n, candidates df n = firstn n (map fst (value_counts (map to_ (tx_rows df))))) /\
  (tx_empty df = false ->
   exists t tbl, table_name x "tx" = Ok t /\ db_tx env t = Some tbl /\
                 List.length (tx_rows df) = List.length (txt_rows tbl) /\
                 map to_ (tx_rows df) = map (fun r => Str.lower (raw_to r)) (txt_rows tbl)).
Proof.
  intros H.
  destruct (table_name x "tx") as [t|e] eqn:T;
    [|unfold fetch_tx_from_db in H; rewrite T in H; discriminate].
  rewrite (fetch_tx_from_db_load env x t T) in H. injection H as <-.
  assert (L : Forall (fun r => Str.lower (to_ r) = to_ r)
                (tx_rows match db_tx env t with
                         | None => empty_tx_frame
                         | Some tbl => load_tx_table tbl
                         end)).
  { destruct (db_tx env t); [apply load_tx_table_lower | constructor]. }
  assert (M : map Str.lower (map to_ (tx_rows match db_tx env t with
                                               | None => empty_tx_frame
                                               | Some tbl => load_tx_table tbl
                                               end))
              = map to_ (tx_rows match db_tx env t with
                                 | None => empty_tx_frame
                                 | Some tbl => load_tx_table tbl
                                 end)).
  { rewrite map_map. apply map_ext_in. intros r Hr.
    rewrite Forall_forall in L. now apply L. }
  split; [exact L|]. split; [exact M|]. split.
  - intros n. unfold candidates. now rewrite M.
  - destruct (db_tx env t) as [tbl|] eqn:Edb; [|discriminate].
    intros He. exists t, tbl. split; [reflexivity|]. split; [exact Edb|].
    unfold load_tx_table in *. destruct (txt_rows tbl) as [|r rows]; [discriminate|].
    destruct (txt_empty_flag tbl); [discriminate|]. cbn [tx_rows].
    split; [apply length_map | apply map_map].
Qed.

Lemma fetched_frame_lowercase_witness :
  Forall (fun r => Str.lower (to_ r) = to_ r) (tx_rows busy_frame).
Proof.
  apply (fetched_frame_lowercase env_busy sample_address busy_frame).
  reflexivity.
Defined.

End FetchedFrames.
